(** * Watercooler: the scene reconciler of [src/public/app.js]

    A shallow embedding of the browser client of watercooler: the data
    refresh ([loadData]), the reconciliation of the 3D desks with the
    identity set ([updateVillage], [createAgentDesk], [updateDeskLabel],
    [updateDeskLabels]), the connector effects ([createConnectionLine],
    [clearConnections]) and the colour hash ([getAgentColor]).

    Modelling choices.
    - JS strings are Stdlib [string]s (8-bit code units);
      [toLowerCase] folds the ASCII letters.
    - A JS [Set] is a duplicate-free list kept in insertion order, a JS [Map]
      an association list kept in insertion order ([set] on a present key
      replaces in place, on a new key appends).
    - The three.js scene is a [World]: the ids of the objects attached to the
      scene root, the GPU handles (geometries, materials, textures) created
      and not yet disposed, the [agentMeshes] map, the [connectionLines]
      array, the pending [setTimeout] callbacks and a log of desk creations,
      removals and label regenerations.  Every [new BufferGeometry],
      [new ...Material] and [new CanvasTexture] allocates a fresh handle.
    - A position [Vector3(cos(a)*r, y, sin(a)*r)] is kept in polar form:
      the angle [a] as a rational multiple of [PI], the radius and the height.
      Angles are exact rationals, not IEEE doubles. *)

From Stdlib Require Import List String Ascii ZArith QArith Bool Lia Permutation Sorted.
From Stdlib Require Import DecimalString.
Import ListNotations.

Local Open Scope list_scope.

(* ------------------------------------------------------------------ *)
(** ** JS strings, Sets and Maps *)

Definition lower_ascii (c : ascii) : ascii :=
  let n := nat_of_ascii c in
  if (65 <=? n)%nat && (n <=? 90)%nat then ascii_of_nat (n + 32) else c.

(** [String.prototype.toLowerCase], on the 26 ASCII capitals only: JS also
    lowercases other capitals (Latin-1 192-222 but 215, Greek, ...), which
    no sample here contains. *)
Fixpoint toLowerCase (s : string) : string :=
  match s with
  | EmptyString => EmptyString
  | String c s' => String (lower_ascii c) (toLowerCase s')
  end.

(** [Set.prototype.has] and [Set.prototype.add]. *)
Definition set_has (x : string) (s : list string) : bool :=
  existsb (String.eqb x) s.

Definition set_add (x : string) (s : list string) : list string :=
  if set_has x s then s else s ++ [x].

(** [new Set(xs)]. *)
Definition set_of_list (xs : list string) : list string :=
  fold_left (fun s x => set_add x s) xs [].

Section JsMap.
Context {V : Type}.

(** [Map.prototype.get] *)
Fixpoint map_get (k : string) (m : list (string * V)) : option V :=
  match m with
  | [] => None
  | (k', v) :: m' => if String.eqb k k' then Some v else map_get k m'
  end.

(** [Map.prototype.has] *)
Definition map_has (k : string) (m : list (string * V)) : bool :=
  match map_get k m with Some _ => true | None => false end.

(** [Map.prototype.set] *)
Fixpoint map_set (k : string) (v : V) (m : list (string * V)) : list (string * V) :=
  match m with
  | [] => [(k, v)]
  | (k', v') :: m' =>
      if String.eqb k k' then (k, v) :: m' else (k', v') :: map_set k v m'
  end.

(** [Map.prototype.delete] *)
Fixpoint map_delete (k : string) (m : list (string * V)) : list (string * V) :=
  match m with
  | [] => []
  | (k', v') :: m' =>
      if String.eqb k k' then m' else (k', v') :: map_delete k m'
  end.

End JsMap.

(* ------------------------------------------------------------------ *)
(** ** [getAgentColor] *)

Definition two32 : Z := 4294967296.
Definition two31 : Z := 2147483648.

(** The ECMAScript [ToInt32] conversion of an integral number. *)
Definition ToInt32 (x : Z) : Z :=
  let m := (x mod two32)%Z in if (m >=? two31)%Z then (m - two32)%Z else m.

(** [x << n]: both operands converted, the result wrapped to 32 bits. *)
Definition shl (x : Z) (n : Z) : Z :=
  ToInt32 (Z.shiftl (ToInt32 x) (n mod 32)%Z).

(** [name.charCodeAt(i)] *)
Definition charCodeAt (c : ascii) : Z := Z.of_nat (nat_of_ascii c).

Definition agentColors : list Z :=
  [0x5EEAD4; 0x6EE7B7; 0x7DD3FC; 0xA78BFA; 0xFBBF24;
   0xF9A8D4; 0x86EFAC; 0x93C5FD; 0xC4B5FD; 0x67E8F9]%Z.

(** The loop [for (...) hash = name.charCodeAt(i) + ((hash << 5) - hash);]
    started from [hash = 0]. *)
Fixpoint hash_loop (hash : Z) (name : string) : Z :=
  match name with
  | EmptyString => hash
  | String c rest => hash_loop (charCodeAt c + (shl hash 5 - hash))%Z rest
  end.

(** [arr[i]] on an integral index: [undefined] out of range. *)
Definition js_index {A} (arr : list A) (i : Z) : option A :=
  if (0 <=? i)%Z then nth_error arr (Z.to_nat i) else None.

Definition getAgentColor (name : string) : option Z :=
  let hash := hash_loop 0 name in
  js_index agentColors (Z.abs hash mod Z.of_nat (List.length agentColors))%Z.

(* ------------------------------------------------------------------ *)
(** ** Data fetched from the server *)

(** A row of the [messages] table; [read] is the SQLite [INTEGER] column. *)
Record Message := {
  id : Z;
  sender : string;
  recipient : string;
  message : string;
  timestamp : string;
  read : Z }.

(** [!msg.read] *)
Definition not_read (m : Message) : bool := (read m =? 0)%Z.

(** [/api/config]; [avatar] is [null] or a database path. *)
Record Config := {
  user : string;
  mailbox : string;
  avatar : option string }.

(** The module-level variables of [app.js] holding the last snapshot;
    [avatarStates] maps a name to the [tool_name] of its latest state. *)
Record Globals := {
  config : Config;
  messages : list Message;
  allMessages : list Message;
  recipients : list string;
  avatarStates : list (string * string) }.

(** [avatarStates[name]?.tool_name || null] *)
Definition toolName_of (g : Globals) (name : string) : option string :=
  match map_get name (avatarStates g) with
  | Some t => if String.eqb t "" then None else Some t
  | None => None
  end.

(* ------------------------------------------------------------------ *)
(** ** The three.js world *)

Definition PLATFORM_HEIGHT : Z := 2.

(** [Vector3(cos(pos_angle * PI) * pos_radius, pos_y,
             sin(pos_angle * PI) * pos_radius)]. *)
Record Vector3 := {
  pos_angle : Q;
  pos_radius : Z;
  pos_y : Z }.

(** A [CanvasTexture] and what was drawn on its canvas: background and
    border colour, the first line ([name] or [name  count]) and the
    optional second line (the tool name). *)
Record Texture := {
  tex_handle : nat;
  tex_fill : string;
  tex_stroke : string;
  tex_name : string;
  tex_count : option nat;
  tex_tool : option string }.

(** The children of a desk group: meshes (geometry and material handles),
    the screen [PointLight] and the name [Sprite] (its material handle and
    the texture in [material.map]). *)
Inductive Node :=
| NMesh (geo mat : nat)
| NLight
| NSprite (mat : nat) (map : Texture).

Record Desk := {
  desk_id : nat;
  desk_color : option Z;
  desk_pos : Vector3;
  desk_children : list Node }.

Inductive TKind := TLine | TMarker.

(** An entry of [connectionLines]: the curve [Line] or a cone marker. *)
Record Transient := {
  t_id : nat;
  t_kind : TKind;
  t_geo : nat;
  t_mat : nat;
  t_from : Vector3;
  t_to : Vector3 }.

Inductive Event :=
| EvCreate (name : string)
| EvRemove (name : string)
| EvLabel (name : string).

Record World := {
  w_next : nat;
  w_scene : list nat;
  w_live : list nat;
  w_agentMeshes : list (string * Desk);
  w_connectionLines : list Transient;
  w_timers : list (Vector3 * Vector3);
  w_log : list Event }.

Definition set_next n w :=
  {| w_next := n; w_scene := w_scene w; w_live := w_live w;
     w_agentMeshes := w_agentMeshes w; w_connectionLines := w_connectionLines w;
     w_timers := w_timers w; w_log := w_log w |}.
Definition set_scene s w :=
  {| w_next := w_next w; w_scene := s; w_live := w_live w;
     w_agentMeshes := w_agentMeshes w; w_connectionLines := w_connectionLines w;
     w_timers := w_timers w; w_log := w_log w |}.
Definition set_live l w :=
  {| w_next := w_next w; w_scene := w_scene w; w_live := l;
     w_agentMeshes := w_agentMeshes w; w_connectionLines := w_connectionLines w;
     w_timers := w_timers w; w_log := w_log w |}.
Definition set_meshes m w :=
  {| w_next := w_next w; w_scene := w_scene w; w_live := w_live w;
     w_agentMeshes := m; w_connectionLines := w_connectionLines w;
     w_timers := w_timers w; w_log := w_log w |}.
Definition set_lines ls w :=
  {| w_next := w_next w; w_scene := w_scene w; w_live := w_live w;
     w_agentMeshes := w_agentMeshes w; w_connectionLines := ls;
     w_timers := w_timers w; w_log := w_log w |}.
Definition set_timers ts w :=
  {| w_next := w_next w; w_scene := w_scene w; w_live := w_live w;
     w_agentMeshes := w_agentMeshes w; w_connectionLines := w_connectionLines w;
     w_timers := ts; w_log := w_log w |}.
Definition set_log l w :=
  {| w_next := w_next w; w_scene := w_scene w; w_live := w_live w;
     w_agentMeshes := w_agentMeshes w; w_connectionLines := w_connectionLines w;
     w_timers := w_timers w; w_log := l |}.

(** The page as loaded: an empty scene (the static props are left out). *)
Definition init_world : World :=
  {| w_next := 0; w_scene := []; w_live := []; w_agentMeshes := [];
     w_connectionLines := []; w_timers := []; w_log := [] |}.

(** *** A state monad over the world *)

Definition M (A : Type) : Type := World -> A * World.

Definition ret {A} (a : A) : M A := fun w => (a, w).
Definition bind {A B} (c : M A) (k : A -> M B) : M B :=
  fun w => let (a, w') := c w in k a w'.

Notation "x <- c ;; k" := (bind c (fun x => k))
  (at level 61, c at next level, right associativity).
(** Sequencing a statement whose value is dropped. *)
Definition seqM {A B} (c : M A) (k : M B) : M B := fun w => k (snd (c w)).

Notation "c ;;; k" := (seqM c k)
  (at level 61, right associativity).

Definition modify (f : World -> World) : M unit := fun w => (tt, f w).
Definition gets {A} (f : World -> A) : M A := fun w => (f w, w).

(** A fresh object id ([new Group], [new Line], [new Mesh]). *)
Definition fresh : M nat := fun w => (w_next w, set_next (S (w_next w)) w).

(** A fresh GPU resource (geometry, material or texture). *)
Definition alloc : M nat :=
  fun w => (w_next w, set_live (w_live w ++ [w_next w]) (set_next (S (w_next w)) w)).

(** [resource.dispose()] *)
Definition dispose (h : nat) : M unit :=
  modify (fun w => set_live (filter (fun x => negb (Nat.eqb x h)) (w_live w)) w).

(** [scene.add(obj)]: three.js first detaches [obj] from its parent, so an
    object is a child of the scene at most once. *)
Definition scene_add (x : nat) : M unit :=
  modify (fun w => set_scene (filter (fun y => negb (Nat.eqb y x)) (w_scene w) ++ [x]) w).

(** [scene.remove(obj)] *)
Definition scene_remove (x : nat) : M unit :=
  modify (fun w => set_scene (filter (fun y => negb (Nat.eqb y x)) (w_scene w)) w).

Definition emit (e : Event) : M unit := modify (fun w => set_log (w_log w ++ [e]) w).

Definition meshes_get (k : string) : M (option Desk) :=
  gets (fun w => map_get k (w_agentMeshes w)).
Definition meshes_set (k : string) (d : Desk) : M unit :=
  modify (fun w => set_meshes (map_set k d (w_agentMeshes w)) w).
Definition meshes_delete (k : string) : M unit :=
  modify (fun w => set_meshes (map_delete k (w_agentMeshes w)) w).

(** [arr.forEach(f)] and [arr.forEach((x, index) => ...)]. *)
Fixpoint forEach {A} (f : A -> M unit) (l : list A) : M unit :=
  match l with
  | [] => ret tt
  | x :: l' => f x ;;; forEach f l'
  end.

Fixpoint forEachi {A} (f : A -> nat -> M unit) (l : list A) (i : nat) : M unit :=
  match l with
  | [] => ret tt
  | x :: l' => f x i ;;; forEachi f l' (S i)
  end.

Fixpoint repeatM {A} (n : nat) (c : M A) : M (list A) :=
  match n with
  | O => ret []
  | S n' => x <- c ;; xs <- repeatM n' c ;; ret (x :: xs)
  end.

Definition push_line (t : Transient) : M unit :=
  modify (fun w => set_lines (w_connectionLines w ++ [t]) w).

(** [setTimeout(() => createMessageParticle(fromPos, toPos), 50)] *)
Definition push_timer (p : Vector3 * Vector3) : M unit :=
  modify (fun w => set_timers (w_timers w ++ [p]) w).

(* ------------------------------------------------------------------ *)
(** ** Desks and their labels *)

Definition plain_fill : string := "rgba(20, 60, 60, 0.85)".
Definition plain_stroke : string := "rgba(79, 209, 197, 0.4)".

Definition alert_fill : string := "rgba(220, 80, 80, 0.85)".
Definition info_fill : string := "rgba(59, 130, 180, 0.85)".
Definition neutral_fill : string := "rgba(20, 60, 60, 0.85)".
Definition alert_stroke : string := "rgba(255, 120, 120, 0.6)".
Definition info_stroke : string := "rgba(100, 180, 255, 0.6)".
Definition neutral_stroke : string := "rgba(79, 209, 197, 0.3)".

(** The label drawn by [createAgentDesk] and [updateDeskLabel]. *)
Definition plain_label (h : nat) (name : string) (toolName : option string) : Texture :=
  {| tex_handle := h; tex_fill := plain_fill; tex_stroke := plain_stroke;
     tex_name := name; tex_count := None; tex_tool := toolName |}.

Definition with_pos (p : Vector3) (d : Desk) : Desk :=
  {| desk_id := desk_id d; desk_color := desk_color d; desk_pos := p;
     desk_children := desk_children d |}.

(** [group.children.find(c => c.isSprite)] *)
Fixpoint find_sprite (cs : list Node) : option (nat * Texture) :=
  match cs with
  | [] => None
  | NSprite m t :: _ => Some (m, t)
  | _ :: cs' => find_sprite cs'
  end.

(** [sprite.material.map = texture] on that sprite. *)
Fixpoint set_sprite_map (t : Texture) (cs : list Node) : list Node :=
  match cs with
  | [] => []
  | NSprite m _ :: cs' => NSprite m t :: cs'
  | c :: cs' => c :: set_sprite_map t cs'
  end.

Definition with_sprite_map (t : Texture) (d : Desk) : Desk :=
  {| desk_id := desk_id d; desk_color := desk_color d; desk_pos := desk_pos d;
     desk_children := set_sprite_map t (desk_children d) |}.

(** [createAgentDesk(name, position, toolName)]: the group, its meshes in the
    order the source builds them (the four legs share [legGeo], the two arms
    share [armObjGeo]), the screen light and the label sprite.  The group is
    added to the scene and registered in [agentMeshes]. *)
Definition createAgentDesk (name : string) (position : Vector3)
    (toolName : option string) : M Desk :=
  let color := getAgentColor name in
  group <- fresh ;;
  deskTopGeo <- alloc ;; deskMat <- alloc ;;
  legGeo <- alloc ;; legMat <- alloc ;;
  chairSeatGeo <- alloc ;; chairMat <- alloc ;;
  chairBackGeo <- alloc ;;
  chairPostGeo <- alloc ;;
  armGeos <- repeatM 5 alloc ;;
  bodyGeo <- alloc ;; bodyMat <- alloc ;;
  headGeo <- alloc ;; headMat <- alloc ;;
  armObjGeo <- alloc ;; armMat <- alloc ;;
  monitorStandGeo <- alloc ;; monitorMat <- alloc ;;
  monitorNeckGeo <- alloc ;;
  screenFrameGeo <- alloc ;;
  screenDisplayGeo <- alloc ;; screenDisplayMat <- alloc ;;
  kbGeo <- alloc ;; kbMat <- alloc ;;
  texture <- alloc ;; spriteMat <- alloc ;;
  let children :=
    [NMesh deskTopGeo deskMat]
    ++ repeat (NMesh legGeo legMat) 4
    ++ [NMesh chairSeatGeo chairMat; NMesh chairBackGeo chairMat;
        NMesh chairPostGeo legMat]
    ++ map (fun g => NMesh g legMat) armGeos
    ++ [NMesh bodyGeo bodyMat; NMesh headGeo headMat;
        NMesh armObjGeo armMat; NMesh armObjGeo armMat;
        NMesh monitorStandGeo monitorMat; NMesh monitorNeckGeo monitorMat;
        NMesh screenFrameGeo monitorMat; NMesh screenDisplayGeo screenDisplayMat;
        NLight;
        NMesh kbGeo kbMat;
        NSprite spriteMat (plain_label texture name toolName)] in
  let desk := {| desk_id := group; desk_color := color;
                 desk_pos := {| pos_angle := pos_angle position;
                                pos_radius := pos_radius position;
                                pos_y := PLATFORM_HEIGHT |};
                 desk_children := children |} in
  scene_add group ;;;
  meshes_set name desk ;;;
  emit (EvCreate name) ;;;
  ret desk.

(** [updateDeskLabel(desk, name, toolName)]; [desk] is the object stored
    under [name]. *)
Definition updateDeskLabel (desk : Desk) (name : string)
    (toolName : option string) : M unit :=
  match find_sprite (desk_children desk) with
  | None => ret tt
  | Some _ =>
      texture <- alloc ;;
      meshes_set name (with_sprite_map (plain_label texture name toolName) desk) ;;;
      emit (EvLabel name)
  end.

(** The label drawn by [updateDeskLabels]. *)
Definition unread_label (h : nat) (name : string) (unreadCount unreadFromAgent : nat)
    (toolName : option string) : Texture :=
  {| tex_handle := h;
     tex_fill := if (0 <? unreadFromAgent)%nat then alert_fill
                 else if (0 <? unreadCount)%nat then info_fill else neutral_fill;
     tex_stroke := if (0 <? unreadFromAgent)%nat then alert_stroke
                   else if (0 <? unreadCount)%nat then info_stroke else neutral_stroke;
     tex_name := name;
     tex_count := if (0 <? unreadFromAgent)%nat then Some unreadFromAgent
                  else if (0 <? unreadCount)%nat then Some unreadCount else None;
     tex_tool := toolName |}.

(** Unread messages the user sent to [name]. *)
Definition unreadCount (g : Globals) (name : string) : nat :=
  List.length (filter (fun m =>
    String.eqb (toLowerCase (recipient m)) (toLowerCase name) &&
    String.eqb (toLowerCase (sender m)) (toLowerCase (user (config g))) &&
    not_read m) (allMessages g)).

(** Unread messages [name] sent to the user. *)
Definition unreadFromAgent (g : Globals) (name : string) : nat :=
  List.length (filter (fun m =>
    String.eqb (toLowerCase (sender m)) (toLowerCase name) &&
    String.eqb (toLowerCase (recipient m)) (toLowerCase (user (config g))) &&
    not_read m) (allMessages g)).

Definition relabel (g : Globals) (entry : string * Desk) : M unit :=
  let '(name, group) := entry in
  let toolName := toolName_of g (toLowerCase name) in
  match find_sprite (desk_children group) with
  | None => ret tt
  | Some _ =>
      texture <- alloc ;;
      meshes_set name (with_sprite_map
        (unread_label texture name (unreadCount g name) (unreadFromAgent g name) toolName)
        group) ;;;
      emit (EvLabel name)
  end.

(** [updateDeskLabels()]: [agentMeshes.forEach((group, name) => ...)]. *)
Definition updateDeskLabels (g : Globals) : M unit :=
  entries <- gets w_agentMeshes ;;
  forEach (relabel g) entries.

(* ------------------------------------------------------------------ *)
(** ** Connectors *)

Definition numMarkers : nat := 4.

(** [createConnectionLine(fromPos, toPos)]: the curve line, then
    [numMarkers] cone markers, all pushed on [connectionLines], and the
    particle scheduled by [setTimeout]. *)
Definition createConnectionLine (fromPos toPos : Vector3) : M unit :=
  material <- alloc ;; geometry <- alloc ;; line <- fresh ;;
  scene_add line ;;;
  push_line {| t_id := line; t_kind := TLine; t_geo := geometry;
               t_mat := material; t_from := fromPos; t_to := toPos |} ;;;
  forEach (fun _ : nat =>
    markerGeo <- alloc ;; markerMat <- alloc ;; marker <- fresh ;;
    scene_add marker ;;;
    push_line {| t_id := marker; t_kind := TMarker; t_geo := markerGeo;
                 t_mat := markerMat; t_from := fromPos; t_to := toPos |})
    (seq 0 numMarkers) ;;;
  push_timer (fromPos, toPos).

(** [clearConnections()] *)
Definition clearConnections : M unit :=
  ls <- gets w_connectionLines ;;
  forEach (fun l => scene_remove (t_id l)) ls ;;;
  modify (set_lines []).

(** The body of [allMessages.forEach(msg => ...)] in [updateVillage]. *)
Definition connect_message (msg : Message) : M unit :=
  fromDesk <- meshes_get (toLowerCase (sender msg)) ;;
  toDesk <- meshes_get (toLowerCase (recipient msg)) ;;
  match fromDesk, toDesk with
  | Some f, Some t =>
      if not_read msg then createConnectionLine (desk_pos f) (desk_pos t) else ret tt
  | _, _ => ret tt
  end.

(* ------------------------------------------------------------------ *)
(** ** [updateVillage] *)

(** [allAgents]: the user and the coworkers, then the sender and the
    recipient of every message of [messages] (the inbox). *)
Definition agent_set (g : Globals) : list string :=
  fold_left (fun s m => set_add (toLowerCase (recipient m))
                          (set_add (toLowerCase (sender m)) s))
    (messages g)
    (set_of_list (toLowerCase (user (config g)) :: map toLowerCase (recipients g))).

(** [(index / agents.length) * Math.PI * 2 - Math.PI / 2], in units of [PI]. *)
Definition layout_angle (index n : nat) : Q :=
  (Z.of_nat index # Pos.of_nat n) * 2 - (1 # 2).

(** [Math.min(20, Math.max(10, agents.length * 3))] *)
Definition layout_radius (n : nat) : Z :=
  Z.min 20 (Z.max 10 (Z.of_nat n * 3)).

(** The body of [agents.forEach((agent, index) => ...)]; the [lookAt]
    rotation is not modelled. *)
Definition place (g : Globals) (n : nat) (radius : Z) (agent : string) (index : nat) : M unit :=
  let position := {| pos_angle := layout_angle index n; pos_radius := radius; pos_y := 0 |} in
  let toolName := toolName_of g (toLowerCase agent) in
  d <- meshes_get agent ;;
  match d with
  | None => _ <- createAgentDesk agent position toolName ;; ret tt
  | Some desk =>
      let desk' := with_pos {| pos_angle := layout_angle index n; pos_radius := radius;
                               pos_y := PLATFORM_HEIGHT |} desk in
      meshes_set agent desk' ;;;
      updateDeskLabel desk' agent toolName
  end.

(** [desk.traverse(child => if (child.isMesh) {...dispose...})] *)
Definition dispose_node (c : Node) : M unit :=
  match c with
  | NMesh geo mat => dispose geo ;;; dispose mat
  | _ => ret tt
  end.

(** [agentMeshes.forEach((desk, name) => if (!allAgents.has(name)) ...)] *)
Definition remove_stale (allAgents : list string) (entry : string * Desk) : M unit :=
  let '(name, desk) := entry in
  if set_has name allAgents then ret tt
  else
    scene_remove (desk_id desk) ;;;
    forEach dispose_node (desk_children desk) ;;;
    meshes_delete name ;;;
    emit (EvRemove name).

Definition updateVillage (g : Globals) : M unit :=
  clearConnections ;;;
  let allAgents := agent_set g in
  let agents := allAgents in
  let radius := layout_radius (List.length agents) in
  forEachi (place g (List.length agents) radius) agents 0 ;;;
  entries <- gets w_agentMeshes ;;
  forEach (remove_stale allAgents) entries ;;;
  forEach connect_message (allMessages g) ;;;
  updateDeskLabels g.

(* ------------------------------------------------------------------ *)
(** ** [loadData] *)

(** A promise: fulfilled with a value or rejected. *)
Inductive Outcome (A : Type) := Fulfilled (a : A) | Rejected.
Arguments Fulfilled {A} a.
Arguments Rejected {A}.

(** A parsed JSON body where an array is expected: the array, or an object
    such as [{error: "..."}] sent with a 500 status. *)
Inductive Json (A : Type) := JArray (items : list A) | JObject (fields : list (string * string)).
Arguments JArray {A} items.
Arguments JObject {A} fields.

(** [Array.isArray(d) ? d : []] *)
Definition arrayOrEmpty {A} (d : Json A) : list A :=
  match d with JArray l => l | JObject _ => [] end.

(** What the network yields in one cycle: for each resource, the outcome of
    [fetch(...)] and, inside it, the outcome of [res.json()]. *)
Record Fetches := {
  configRes : Outcome (Outcome Config);
  messagesRes : Outcome (Outcome (Json Message));
  coworkersRes : Outcome (Outcome (Json string));
  allMessagesRes : Outcome (Outcome (Json Message));
  avatarsRes : Outcome (Outcome (list (string * string))) }.

(** [Promise.all] of four promises. *)
Definition promise_all4 {A B C D} (a : Outcome A) (b : Outcome B) (c : Outcome C)
    (d : Outcome D) : Outcome (A * B * C * D) :=
  match a, b, c, d with
  | Fulfilled a, Fulfilled b, Fulfilled c, Fulfilled d => Fulfilled (a, b, c, d)
  | _, _, _, _ => Rejected
  end.

(** *** An exception and state monad over the globals and the world *)

Definition St : Type := (Globals * World)%type.

Inductive Res (A : Type) := Ok (a : A) (s : St) | Thrown (s : St).
Arguments Ok {A} a s.
Arguments Thrown {A} s.

Definition EM (A : Type) : Type := St -> Res A.

Definition eret {A} (a : A) : EM A := fun s => Ok a s.
Definition ebind {A B} (c : EM A) (k : A -> EM B) : EM B :=
  fun s => match c s with Ok a s' => k a s' | Thrown s' => Thrown s' end.

Notation "x <-- c ;; k" := (ebind c (fun x => k))
  (at level 61, c at next level, right associativity).
Notation "c ;;;; k" := (ebind c (fun _ => k))
  (at level 61, right associativity).

(** [await p]: throws when [p] rejects. *)
Definition await {A} (p : Outcome A) : EM A :=
  fun s => match p with Fulfilled a => Ok a s | Rejected => Thrown s end.

(** [try { body } catch (err) { handler }] *)
Definition try_catch (body handler : EM unit) : EM unit :=
  fun s => match body s with Ok a s' => Ok a s' | Thrown s' => handler s' end.

Definition get_globals : EM Globals := fun s => Ok (fst s) s.
Definition put_globals (g : Globals) : EM unit := fun s => Ok tt (g, snd s).

(** Running scene code. *)
Definition run_scene (c : M unit) : EM unit :=
  fun s => Ok tt (fst s, snd (c (snd s))).

(** [console.error(...)] *)
Definition console_error : EM unit := eret tt.

(** [Array.prototype.sort()] without a comparator, on strings: the order of
    the code units; an insertion sort. *)
Fixpoint insert_sorted (x : string) (l : list string) : list string :=
  match l with
  | [] => [x]
  | y :: l' => if String.leb x y then x :: l else y :: insert_sorted x l'
  end.

Definition sort_strings (l : list string) : list string :=
  fold_right insert_sorted [] l.

(** [throw]: an exception raised by the code itself. *)
Definition ethrow {A} : EM A := fun s => Thrown s.

Section Rendering.

(** Whether [renderMessageCard(msg, true)] throws on [msg]. It does when the
    text of the message opens with a frontmatter block whose [choices] parse
    to an array holding something other than a string: for
    "---\nchoices: [1]\n---\nhello", [choice.replace] is not a function.
    [parseFrontmatter] (regular expressions and [JSON.parse]) and [marked]
    are not embedded: the properties below hold for every such predicate. *)
Variable renderMessageCard_throws : Message -> bool.

(** The desk dialog: [Some (currentDeskAgent, currentTab)] while
    [#house-dialog] has the class [active], [None] otherwise. *)
Variable deskDialog : option (string * string).

(** The cards [updateDeskDialogContent()] renders: none when
    [currentDeskAgent] is empty, else the history filtered on the
    recipient (tab ["received"]) or on the sender (any other tab). *)
Definition dialog_cards (alls : list Message) : list Message :=
  match deskDialog with
  | None => []
  | Some (agent, tab) =>
      if String.eqb agent "" then []
      else if String.eqb tab "received"
      then filter (fun m => String.eqb (toLowerCase (recipient m)) agent) alls
      else filter (fun m => String.eqb (toLowerCase (sender m)) agent) alls
  end.

(** Whether the panels of [updateUI()] throw: a card of
    [messages.slice(0, 20)] (the list is empty when [messages] is), or a
    card of the open desk dialog. *)
Definition updateUI_throws (g : Globals) : bool :=
  existsb renderMessageCard_throws (firstn 20 (messages g))
  || existsb renderMessageCard_throws (dialog_cards (allMessages g)).

(** [updateUI()]: the badge and the panels are DOM writes; the state it
    changes is [recipients], sorted in place by [recipients.sort()] before
    the message cards are rendered. *)
Definition updateUI : EM unit :=
  g <-- get_globals ;;
  put_globals {| config := config g; messages := messages g;
                 allMessages := allMessages g;
                 recipients := sort_strings (recipients g);
                 avatarStates := avatarStates g |} ;;;;
  g <-- get_globals ;;
  if updateUI_throws g then ethrow else eret tt.

Definition with_config (c : Config) (g : Globals) : Globals :=
  {| config := c; messages := messages g; allMessages := allMessages g;
     recipients := recipients g; avatarStates := avatarStates g |}.

Definition with_data (ms : list Message) (rs : list string) (alls : list Message)
    (g : Globals) : Globals :=
  {| config := config g; messages := ms; allMessages := alls;
     recipients := rs; avatarStates := avatarStates g |}.

Definition with_avatars (a : list (string * string)) (g : Globals) : Globals :=
  {| config := config g; messages := messages g; allMessages := allMessages g;
     recipients := recipients g; avatarStates := a |}.

(** [if (config.avatar)]: a non-empty path. *)
Definition avatar_on (c : Config) : bool :=
  match avatar c with Some p => negb (String.eqb p "") | None => false end.

(** The body of the [try] block of [loadData]. *)
Definition loadData_body (f : Fetches) : EM unit :=
  res <-- await (promise_all4 (configRes f) (messagesRes f) (coworkersRes f)
                              (allMessagesRes f)) ;;
  let '(configRes, messagesRes, coworkersRes, allMessagesRes) := res in
  c <-- await configRes ;;
  g <-- get_globals ;;
  put_globals (with_config c g) ;;;;
  messagesData <-- await messagesRes ;;
  recipientsData <-- await coworkersRes ;;
  allMessagesData <-- await allMessagesRes ;;
  g <-- get_globals ;;
  put_globals (with_data (arrayOrEmpty messagesData) (arrayOrEmpty recipientsData)
                 (arrayOrEmpty allMessagesData) g) ;;;;
  g <-- get_globals ;;
  (if avatar_on (config g) then
     try_catch
       (avatarsRes <-- await (avatarsRes f) ;;
        a <-- await avatarsRes ;;
        g <-- get_globals ;;
        put_globals (with_avatars a g))
       (console_error ;;;;
        g <-- get_globals ;;
        put_globals (with_avatars [] g))
   else eret tt) ;;;;
  updateUI ;;;;
  g <-- get_globals ;;
  run_scene (updateVillage g).

(** [async function loadData()] *)
Definition loadData (f : Fetches) : EM unit :=
  try_catch (loadData_body f) console_error.

End Rendering.

(* ------------------------------------------------------------------ *)
(** ** Sample snapshots *)

Definition msg (i : Z) (s r : string) (rd : Z) : Message :=
  {| id := i; sender := s; recipient := r; message := "hello"%string;
     timestamp := "2025-01-01T00:00:00Z"%string; read := rd |}.

Definition snapshot (u : string) (inbox all : list Message) (roster : list string) : Globals :=
  {| config := {| user := u; mailbox := "mailbox.db"%string; avatar := None |};
     messages := inbox; allMessages := all; recipients := roster; avatarStates := [] |}.

(** A sample office: roster [alice, bob], user carol, one unread
    message from alice to carol. *)
Definition carol_snapshot : Globals :=
  let m := msg 1 "alice" "carol" 0 in
  snapshot "carol" [m] [m] ["alice"; "bob"]%string.

(** The same roster without alice. *)
Definition carol_snapshot_no_alice : Globals :=
  snapshot "carol" [] [] ["bob"]%string.

(** A message between two coworkers that never reaches carol's inbox. *)
Definition dave_erin_snapshot : Globals :=
  snapshot "carol" [] [msg 7 "dave" "erin" 0] []%string.

Definition config_v2 : Config :=
  {| user := "carol"; mailbox := "mailbox-v2.db"; avatar := None |}.


(** A cycle whose roster endpoint answers [{error: "..."}]. *)
Definition fetches_roster_error : Fetches :=
  {| configRes := Fulfilled (Fulfilled config_v2);
     messagesRes := Fulfilled (Fulfilled (JArray [msg 1 "alice" "carol" 0]));
     coworkersRes := Fulfilled (Fulfilled (JObject [("error", "database is locked")]%string));
     allMessagesRes := Fulfilled (Fulfilled (JArray [msg 1 "alice" "carol" 0]));
     avatarsRes := Rejected |}.

(** Unread messages both ways between alice and carol. *)
Definition both_ways_snapshot : Globals :=
  let m1 := msg 1 "alice" "carol" 0 in
  let m2 := msg 2 "carol" "alice" 0 in
  snapshot "carol" [m1; m2] [m1; m2] ["alice"]%string.

(** A desk whose children are just its label sprite. *)
Definition label_only_desk (name : string) : Desk :=
  {| desk_id := 0%nat; desk_color := getAgentColor name;
     desk_pos := {| pos_angle := 0; pos_radius := 10; pos_y := PLATFORM_HEIGHT |};
     desk_children := [NLight; NSprite 1%nat (plain_label 2%nat name None)] |}.

Definition alice_world : World :=
  {| w_next := 3%nat; w_scene := [0%nat]; w_live := [1%nat; 2%nat];
     w_agentMeshes := [("alice"%string, label_only_desk "alice")];
     w_connectionLines := []; w_timers := []; w_log := [] |}.

(* ------------------------------------------------------------------ *)
(** ** The server ([src/server.ts]) *)

(** A row of the [messages] table. *)
Record Row := {
  row_id : Z;
  row_recipient : string;
  row_sender : string;
  row_message : string;
  row_timestamp : Z;
  row_read : Z }.

(** The mailbox database: the [messages] table when it exists, and the
    counter that [sqlite_sequence] keeps for its [AUTOINCREMENT] key.  The
    handlers below are those of a server whose mailbox database is
    connected (each handler first throws when [db] is null). *)
Record Db := {
  db_messages : option (list Row);
  db_seq : Z }.

(** An HTTP answer: status 200 with a body, or an error status. *)
Inductive Reply (A : Type) := R200 (a : A) | RError (status : Z).
Arguments R200 {A} a.
Arguments RError {A} status.

Definition reply_ok {A} (r : Reply A) : bool :=
  match r with R200 _ => true | RError _ => false end.

(** [tableExists(db, 'messages')] *)
Definition tableExists (db : Db) : bool :=
  match db_messages db with Some _ => true | None => false end.

(** [ORDER BY timestamp DESC]: SQLite returns the selected rows sorted by
    decreasing timestamp, rows with equal timestamps in an unspecified
    order; so a query has a set of admissible results. *)
Definition ts_desc (a b : Row) : Prop := (row_timestamp b <= row_timestamp a)%Z.

Definition query_result (p : Row -> bool) (db : Db) (r : list Row) : Prop :=
  match db_messages db with
  | None => r = []
  | Some rows => Permutation r (filter p rows) /\ Sorted ts_desc r
  end.

(** [WHERE recipient = ?] with [user.toLowerCase()]: SQLite's [=] on text
    is exact (BINARY collation). *)
Definition for_recipient (user : string) (x : Row) : bool :=
  String.eqb (row_recipient x) (toLowerCase user).

(** The rows of the [messages] table; none when it does not exist. *)
Definition table_rows (db : Db) : list Row :=
  match db_messages db with Some rows => rows | None => [] end.

(** [GET /api/messages]: an admissible body is [r]. *)
Definition api_messages (user : string) (db : Db) (r : list Row) : Prop :=
  query_result (for_recipient user) db r.

(** The [CREATE TABLE messages (...)] of [POST /api/send], run when the
    table is missing; a new table has no [sqlite_sequence] entry. *)
Definition create_messages_table (db : Db) : Db :=
  match db_messages db with
  | Some _ => db
  | None => {| db_messages := Some []; db_seq := 0 |}
  end.

Definition max_id (rows : list Row) : Z :=
  fold_left (fun m x => Z.max m (row_id x)) rows 0%Z.

(** The JSON body of [POST /api/send]; [to] may be absent.  [message] is
    taken to be a string (an absent one would fail the [NOT NULL]
    constraint of the insert). *)
Record SendBody := {
  body_to : option string;
  body_from : string;
  body_message : string }.

(** [POST /api/send] on the server run as [user], at time [now]
    ([Date.now()]).  [to.toLowerCase()] throws when [to] is absent, after
    the table has been created.  The [AUTOINCREMENT] key takes one more
    than the larger of the counter and the largest key in the table. *)
Definition api_send (user : string) (now : Z) (b : SendBody) (db : Db) : Reply unit * Db :=
  let db1 := create_messages_table db in
  match db_messages db1, body_to b with
  | Some rows, Some t =>
      let i := (Z.max (db_seq db1) (max_id rows) + 1)%Z in
      let row := {| row_id := i; row_recipient := toLowerCase t;
                    row_sender := toLowerCase user; row_message := body_message b;
                    row_timestamp := now; row_read := 0 |} in
      (R200 tt, {| db_messages := Some (rows ++ [row]); db_seq := i |})
  | _, _ => (RError 500, db1)
  end.

Definition set_read (x : Row) : Row :=
  {| row_id := row_id x; row_recipient := row_recipient x; row_sender := row_sender x;
     row_message := row_message x; row_timestamp := row_timestamp x; row_read := 1 |}.

(** [POST /api/messages/:id/read] *)
Definition api_mark_read (i : Z) (db : Db) : Reply unit * Db :=
  match db_messages db with
  | None => (RError 404, db)
  | Some rows =>
      (R200 tt, {| db_messages := Some (map (fun x => if Z.eqb (row_id x) i then set_read x else x) rows);
                   db_seq := db_seq db |})
  end.

(** [Set.prototype.delete] *)
Definition set_delete (x : string) (s : list string) : list string :=
  filter (fun y => negb (String.eqb y x)) s.

(** [GET /api/coworkers]: [cdb] is the coworker database ([None] when it
    is not configured or did not open) and the result of
    [SELECT name FROM coworkers] ([None] when the query throws, which the
    handler catches). *)
Definition api_coworkers (user : string) (cdb : option (option (list string))) : list string :=
  let allCoworkers :=
    match cdb with
    | Some (Some names) => fold_left (fun s n => set_add (toLowerCase n) s) names []
    | _ => []
    end in
  sort_strings (set_delete (toLowerCase user) allCoworkers).

(** A row of [latest_tool_usage]. *)
Record AvatarRow := {
  av_name : string;
  av_tool : string;
  av_ts : Z }.

(** The properties a plain object [{}] inherits from [Object.prototype]:
    [avatarStates[name]] is truthy for them before any assignment. *)
Definition object_prototype_keys : list string :=
  ["constructor"; "__defineGetter__"; "__defineSetter__"; "hasOwnProperty";
   "__lookupGetter__"; "__lookupSetter__"; "isPrototypeOf"; "propertyIsEnumerable";
   "toString"; "valueOf"; "__proto__"; "toLocaleString"]%string.

(** The loop of [GET /api/avatars] over the rows, building the object as
    an association list of its own properties (only lookups are used below,
    so the enumeration order of integer-like keys does not matter): a row
    is stored unless [avatarStates[row.name]] is already truthy, which it is
    for an own property and for an inherited one. *)
Definition avatar_states_of (rows : list AvatarRow) : list (string * (string * Z)) :=
  fold_left (fun st r =>
    if map_has (av_name r) st || existsb (String.eqb (av_name r)) object_prototype_keys
    then st
    else st ++ [(av_name r, (av_tool r, av_ts r))]) rows [].

(** [GET /api/avatars]: [adb] is the avatar database ([None] when absent)
    and, when it has a [latest_tool_usage] table, the rows of the
    [ORDER BY timestamp DESC] query. *)
Definition api_avatars (adb : option (option (list AvatarRow))) : list (string * (string * Z)) :=
  match adb with
  | Some (Some rows) => avatar_states_of rows
  | _ => []
  end.

(** [JSON.stringify] of a row and [res.json()] on the client: the integer
    timestamp becomes the client's [timestamp] field as its decimal text. *)
Definition row_json (x : Row) : Message :=
  {| id := row_id x; sender := row_sender x; recipient := row_recipient x;
     message := row_message x;
     timestamp := NilZero.string_of_int (Z.to_int (row_timestamp x));
     read := row_read x |}.

(* ------------------------------------------------------------------ *)
(** ** The rest of the client ([src/public/app.js]) *)

(** [String.prototype.trim] removes the white space and line terminators
    that are single code units below 256: TAB, LF, VT, FF, CR, SPACE and
    NO-BREAK SPACE. *)
Definition is_js_space (c : ascii) : bool :=
  match nat_of_ascii c with
  | 9 | 10 | 11 | 12 | 13 | 32 | 160 => true
  | _ => false
  end%nat.

Fixpoint drop_spaces (l : list ascii) : list ascii :=
  match l with
  | c :: l' => if is_js_space c then drop_spaces l' else l
  | [] => []
  end.

Definition trim (s : string) : string :=
  string_of_list_ascii (rev (drop_spaces (rev (drop_spaces (list_ascii_of_string s))))).

(** What [sendMessage()] does with the selected recipient [to] and the text
    of the input: an alert, or the bodies it posts to [/api/send]. *)
Inductive SendPlan := PlanAlert | PlanSend (bodies : list SendBody).

Definition sendMessage_plan (g : Globals) (to raw : string) : SendPlan :=
  let message := trim raw in
  if String.eqb to "" || String.eqb message "" then PlanAlert
  else if String.eqb to "@everyone" then
    PlanSend (map (fun r => {| body_to := Some r; body_from := user (config g);
                               body_message := message |}) (recipients g))
  else PlanSend [{| body_to := Some to; body_from := user (config g); body_message := message |}].

(** The server handling posted bodies one after the other, in the order
    they arrive, the [i]-th at time [clock i]; the replies and the final
    database. *)
Fixpoint serve_sends (user : string) (clock : nat -> Z) (i : nat) (bs : list SendBody) (db : Db)
    : list (Reply unit) * Db :=
  match bs with
  | [] => ([], db)
  | b :: bs' =>
      let '(r, db1) := api_send user (clock i) b db in
      let '(rs, db2) := serve_sends user clock (S i) bs' db1 in
      (r :: rs, db2)
  end.

(** [responses.every(r => r.ok)] *)
Definition allSuccessful (rs : list (Reply unit)) : bool := forallb reply_ok rs.

(** The unread messages of the inbox addressed to the user, as filtered by
    [updateUI] (its badge) and by [markAllAsRead]. *)
Definition unread_inbox (g : Globals) : list Message :=
  filter (fun m => not_read m &&
                   String.eqb (toLowerCase (recipient m)) (toLowerCase (user (config g))))
    (messages g).

(** The badge count of [updateUI]. *)
Definition unread_badge (g : Globals) : nat := List.length (unread_inbox g).

(** The ids [markAllAsRead] posts to [/api/messages/:id/read]; none when
    there is no unread message (the early return). *)
Definition markAllAsRead_ids (g : Globals) : list Z := map id (unread_inbox g).

(** The server applying the read marks in the order they arrive. *)
Definition serve_marks (ids : list Z) (db : Db) : Db :=
  fold_left (fun db i => snd (api_mark_read i db)) ids db.

(** [recipients.sort()] in [updateUI]: it sorts the global array in
    place, before [updateVillage] reads it. *)
Definition updateUI_sort (g : Globals) : Globals :=
  with_data (messages g) (sort_strings (recipients g)) (allMessages g) g.

(* ------------------------------------------------------------------ *)
(** ** Sample server data *)

Definition sample_row (i : Z) (s r : string) (ts rd : Z) : Row :=
  {| row_id := i; row_recipient := r; row_sender := s; row_message := "hello"%string;
     row_timestamp := ts; row_read := rd |}.

(** Two messages to carol, the older one unread, and one from carol. *)
Definition sample_db : Db :=
  {| db_messages := Some [sample_row 1 "alice" "carol" 100 0; sample_row 2 "bob" "carol" 200 1;
                          sample_row 3 "carol" "alice" 300 0];
     db_seq := 3 |}.

(** carol's inbox as [/api/messages] returns it, newest first. *)
Definition sample_inbox : list Row :=
  [sample_row 2 "bob" "carol" 200 1; sample_row 1 "alice" "carol" 100 0].

(** The [coworkers] table, with mixed case and a duplicate. *)
Definition sample_coworkers : option (option (list string)) :=
  Some (Some ["Bob"; "alice"; "Carol"; "ALICE"]%string).

(** [latest_tool_usage], newest first. *)
Definition sample_avatar_rows : list AvatarRow :=
  [{| av_name := "bob"; av_tool := "Edit"; av_ts := 300 |};
   {| av_name := "constructor"; av_tool := "Read"; av_ts := 250 |};
   {| av_name := "alice"; av_tool := "Bash"; av_ts := 200 |};
   {| av_name := "bob"; av_tool := "Read"; av_ts := 100 |}]%string.

(** The row a message from alice to carol gets in [sample_db]. *)
Definition lunch_row : Row :=
  {| row_id := 4; row_recipient := "carol"%string; row_sender := "alice"%string;
     row_message := "lunch?"%string; row_timestamp := 500; row_read := 0 |}.

(** A cycle with an avatar database configured whose [/api/avatars]
    request fails. *)
Definition fetches_avatar_down : Fetches :=
  {| configRes := Fulfilled (Fulfilled {| user := "carol"; mailbox := "mailbox.db";
                                          avatar := Some "avatars.db" |})%string;
     messagesRes := Fulfilled (Fulfilled (JArray [msg 1 "alice" "carol" 0]));
     coworkersRes := Fulfilled (Fulfilled (JArray ["alice"; "bob"]%string));
     allMessagesRes := Fulfilled (Fulfilled (JArray [msg 1 "alice" "carol" 0]));
     avatarsRes := Rejected |}.

(** carol's client with the roster served by [/api/coworkers]. *)
Definition broadcast_snapshot : Globals :=
  snapshot "carol" [] [] (api_coworkers "carol" sample_coworkers).

(* ------------------------------------------------------------------ *)
(** ** Views of the state used by the properties *)


(** [c] leaves the projection [p] of the world unchanged. *)
Definition preserves {B A} (p : World -> B) (c : M A) : Prop :=
  forall w, p (snd (c w)) = p w.

Definition layout_pos (i n : nat) (r : Z) : Vector3 :=
  {| pos_angle := layout_angle i n; pos_radius := r; pos_y := PLATFORM_HEIGHT |}.

Definition sprite_b (d : Desk) : bool :=
  match find_sprite (desk_children d) with Some _ => true | None => false end.

Definition old_sprite_ok (o : option Desk) : bool :=
  match o with Some d0 => sprite_b d0 | None => true end.

Definition relabel_tex (g : Globals) (h : nat) (k : string) : Texture :=
  unread_label h k (unreadCount g k) (unreadFromAgent g k) (toolName_of g (toLowerCase k)).

(** What a connector entry shows: its kind and its two endpoints. *)
Definition conn_view (t : Transient) : TKind * Vector3 * Vector3 :=
  (t_kind t, t_from t, t_to t).

Definition is_line (t : Transient) : bool :=
  match t_kind t with TLine => true | TMarker => false end.

(** The entries one message contributes, looked up in the map [ms]. *)
Definition conn_block (ms : list (string * Desk)) (m : Message) : list (TKind * Vector3 * Vector3) :=
  match map_get (toLowerCase (sender m)) ms, map_get (toLowerCase (recipient m)) ms with
  | Some f, Some t =>
      if not_read m
      then (TLine, desk_pos f, desk_pos t) :: repeat (TMarker, desk_pos f, desk_pos t) numMarkers
      else []
  | _, _ => []
  end.

(** An unread message whose two endpoints have a desk. *)
Definition connectable (ms : list (string * Desk)) (m : Message) : bool :=
  not_read m && map_has (toLowerCase (sender m)) ms && map_has (toLowerCase (recipient m)) ms.

(** The texture handle on the label sprite of [name]'s desk. *)
Definition label_handle (name : string) (w : World) : option nat :=
  match map_get name (w_agentMeshes w) with
  | Some d => option_map (fun p => tex_handle (snd p)) (find_sprite (desk_children d))
  | None => None
  end.

(** Whether a GPU handle is still allocated. *)
Definition live (h : nat) (w : World) : bool := existsb (Nat.eqb h) (w_live w).

(** The geometry and material handles of a desk's meshes. *)
Definition mesh_handles (d : Desk) : list nat :=
  flat_map (fun c => match c with NMesh geo mat => [geo; mat] | _ => [] end) (desk_children d).

(** The material and texture handles of a desk's sprites. *)
Definition sprite_handles (d : Desk) : list nat :=
  flat_map (fun c => match c with NSprite mat t => [mat; tex_handle t] | _ => [] end)
    (desk_children d).

(** Every desk of the map has its label sprite. *)
Definition all_sprites (w : World) : Prop :=
  forall k d, In (k, d) (w_agentMeshes w) -> sprite_b d = true.

(* ================================================================== *)
(** * Properties *)

(** ** Monad and container lemmas *)

Lemma run_bind {A B} (c : M A) (k : A -> M B) w :
  bind c k w = k (fst (c w)) (snd (c w)).
Proof. unfold bind. destruct (c w). reflexivity. Qed.

Lemma run_seq {A B} (c : M A) (k : M B) w : seqM c k w = k (snd (c w)).
Proof. reflexivity. Qed.

(** ** getAgentColor *)

(** C10: [getAgentColor name] is the palette entry at index [|h| mod 10],
    where [h] is the rolling hash [hash = charCode + ((hash << 5) - hash)]
    started from 0 (with the 32-bit [<<] of JS); the index is always in the
    palette, so the colour is always defined and depends on [name] only. *)
Theorem getAgentColor_palette_index (name : string) :
  (0 <= Z.abs (hash_loop 0 name) mod Z.of_nat (List.length agentColors)
     < Z.of_nat (List.length agentColors))%Z /\
  getAgentColor name =
    Some (nth (Z.to_nat (Z.abs (hash_loop 0 name) mod Z.of_nat (List.length agentColors)))
              agentColors 0%Z).
Proof.
  assert (Hb : (0 <= Z.abs (hash_loop 0 name) mod 10 < 10)%Z)
    by (apply Z.mod_pos_bound; lia).
  change (Z.of_nat (List.length agentColors)) with 10%Z.
  split; [exact Hb|].
  unfold getAgentColor, js_index.
  change (Z.of_nat (List.length agentColors)) with 10%Z.
  destruct Hb as [H0 H10].
  apply Z.leb_le in H0. rewrite H0.
  apply nth_error_nth'. change (List.length agentColors) with 10%nat. lia.
Qed.

Example getAgentColor_alice :
  hash_loop 0 "alice" = 92903040%Z /\ getAgentColor "alice" = Some 0x5EEAD4%Z.
Proof. split; reflexivity. Qed.

(** ** loadData *)

(** Running the exception and state monad on a concrete start. *)
Ltac em_simpl :=
  cbv [ebind eret get_globals put_globals ethrow run_scene console_error await
       promise_all4 fst snd];
  cbn -[updateUI_throws updateVillage sort_strings].

(** C8: when the inbox, roster or history body is not an array (an
    error-shaped object), that variable is set to [] for the cycle, each of
    the other variables takes its own payload (the roster then sorted in
    place by [updateUI]), and no refresh ever lets an exception escape.  The
    cycle reconciles the scene with the new snapshot, unless [updateUI]
    throws while rendering a message card: then the scene is the previous
    one.  This holds whatever cards throw and whatever the desk dialog
    shows. *)
Theorem loadData_error_shaped_payloads (rt : Message -> bool)
    (dd : option (string * string)) (f : Fetches) (g : Globals) (w : World)
    (c : Config) (md : Json Message) (rd : Json string) (ad : Json Message) :
  configRes f = Fulfilled (Fulfilled c) ->
  messagesRes f = Fulfilled (Fulfilled md) ->
  coworkersRes f = Fulfilled (Fulfilled rd) ->
  allMessagesRes f = Fulfilled (Fulfilled ad) ->
  (forall s, exists s', loadData rt dd f s = Ok tt s') /\
  exists g' w', loadData rt dd f (g, w) = Ok tt (g', w') /\
    config g' = c /\
    messages g' = arrayOrEmpty md /\
    recipients g' = sort_strings (arrayOrEmpty rd) /\
    allMessages g' = arrayOrEmpty ad /\
    (forall fl, md = JObject fl -> messages g' = []) /\
    (forall fl, rd = JObject fl -> recipients g' = []) /\
    (forall fl, ad = JObject fl -> allMessages g' = []) /\
    w' = (if updateUI_throws rt dd g' then w else snd (updateVillage g' w)).
Proof.
  intros Hc Hm Hr Ha. split.
  - intros s. unfold loadData, try_catch.
    destruct (loadData_body rt dd f s) as [[] s'|s']; eexists; reflexivity.
  - unfold loadData, try_catch, loadData_body, updateUI.
    rewrite Hc, Hm, Hr, Ha. em_simpl.
    destruct (avatar_on c) eqn:Hav;
      [destruct (avatarsRes f) as [[a|]|]|]; em_simpl;
      match goal with
      | |- context [updateUI_throws rt dd ?g'] => destruct (updateUI_throws rt dd g') eqn:Ht
      end; em_simpl;
      (eexists; eexists; split; [reflexivity|]);
      em_simpl; rewrite ?Ht;
      (repeat split; try reflexivity; intros fl ->; reflexivity).
Qed.

Lemma loadData_error_shaped_payloads_witness :
  configRes fetches_roster_error = Fulfilled (Fulfilled config_v2) /\
  messagesRes fetches_roster_error = Fulfilled (Fulfilled (JArray [msg 1 "alice" "carol" 0])) /\
  coworkersRes fetches_roster_error =
    Fulfilled (Fulfilled (JObject [("error", "database is locked")]%string)) /\
  allMessagesRes fetches_roster_error = Fulfilled (Fulfilled (JArray [msg 1 "alice" "carol" 0])) /\
  (forall s, exists s', loadData (fun _ => false) None fetches_roster_error s = Ok tt s') /\
  exists g' w', loadData (fun _ => false) None fetches_roster_error (carol_snapshot, init_world)
                  = Ok tt (g', w') /\
    config g' = config_v2 /\
    messages g' = arrayOrEmpty (JArray [msg 1 "alice" "carol" 0]) /\
    recipients g' = sort_strings (arrayOrEmpty (JObject [("error", "database is locked")]%string)) /\
    allMessages g' = arrayOrEmpty (JArray [msg 1 "alice" "carol" 0]) /\
    (forall fl, @JArray Message [msg 1 "alice" "carol" 0] = JObject fl -> messages g' = []) /\
    (forall fl, @JObject string [("error", "database is locked")]%string = JObject fl ->
       recipients g' = []) /\
    (forall fl, @JArray Message [msg 1 "alice" "carol" 0] = JObject fl -> allMessages g' = []) /\
    w' = (if updateUI_throws (fun _ => false) None g' then init_world
          else snd (updateVillage g' init_world)).
Proof.
  split; [reflexivity|]. split; [reflexivity|]. split; [reflexivity|]. split; [reflexivity|].
  apply (loadData_error_shaped_payloads (fun _ => false) None fetches_roster_error
           carol_snapshot init_world
           config_v2 (JArray [msg 1 "alice" "carol" 0])
           (JObject [("error", "database is locked")]%string)
           (JArray [msg 1 "alice" "carol" 0])); reflexivity.
Defined.



(** ** Sets and maps *)

Lemma set_has_In x s : set_has x s = true <-> In x s.
Proof.
  unfold set_has. rewrite existsb_exists. split.
  - intros [y [Hy Heq]]. apply String.eqb_eq in Heq. subst. exact Hy.
  - intros H. exists x. split; [exact H | apply String.eqb_refl].
Qed.

Lemma set_add_In x y s : In y (set_add x s) <-> y = x \/ In y s.
Proof.
  unfold set_add. destruct (set_has x s) eqn:E.
  - apply set_has_In in E. split; [tauto|]. intros [->|H]; assumption.
  - rewrite in_app_iff. simpl. split; intros H; intuition.
Qed.

Lemma set_add_NoDup x s : NoDup s -> NoDup (set_add x s).
Proof.
  intros Hs. unfold set_add. destruct (set_has x s) eqn:E; [exact Hs|].
  apply NoDup_app; [exact Hs | constructor; [intros []|constructor] |].
  intros y Hy [->|[]]. apply set_has_In in Hy. congruence.
Qed.

Lemma set_of_list_fold xs s :
  NoDup s ->
  NoDup (fold_left (fun s x => set_add x s) xs s) /\
  (forall y, In y (fold_left (fun s x => set_add x s) xs s) <-> In y s \/ In y xs).
Proof.
  revert s. induction xs as [|x xs IH]; intros s Hs; simpl.
  - split; [exact Hs|]. intros y. simpl. tauto.
  - destruct (IH (set_add x s) (set_add_NoDup x s Hs)) as [H1 H2].
    split; [exact H1|]. intros y. rewrite H2, set_add_In. simpl.
    intuition (subst; auto).
Qed.

Lemma agent_set_spec (g : Globals) :
  NoDup (agent_set g) /\
  forall k, In k (agent_set g) <->
    k = toLowerCase (user (config g)) \/ In k (map toLowerCase (recipients g)) \/
    exists m, In m (messages g) /\
      (k = toLowerCase (sender m) \/ k = toLowerCase (recipient m)).
Proof.
  unfold agent_set, set_of_list.
  set (s0 := fold_left (fun s x => set_add x s)
               (toLowerCase (user (config g)) :: map toLowerCase (recipients g)) []).
  destruct (set_of_list_fold (toLowerCase (user (config g)) :: map toLowerCase (recipients g))
              [] (NoDup_nil _)) as [N0 I0].
  fold s0 in N0, I0.
  assert (Hgen : forall ms s, NoDup s ->
    NoDup (fold_left (fun s m => set_add (toLowerCase (recipient m))
                                   (set_add (toLowerCase (sender m)) s)) ms s) /\
    forall k, In k (fold_left (fun s m => set_add (toLowerCase (recipient m))
                                   (set_add (toLowerCase (sender m)) s)) ms s) <->
      In k s \/ exists m, In m ms /\
        (k = toLowerCase (sender m) \/ k = toLowerCase (recipient m))).
  { induction ms as [|m ms IH]; intros s Hs; simpl.
    - split; [exact Hs|]. intros k. split; [tauto|].
      intros [H|[m [[] _]]]. exact H.
    - destruct (IH _ (set_add_NoDup (toLowerCase (recipient m)) _
                        (set_add_NoDup (toLowerCase (sender m)) _ Hs))) as [H1 H2].
      split; [exact H1|]. intros k. rewrite H2, !set_add_In. split.
      + intros [[H|[H|H]]|[m' [Hm' Hk]]].
        * right. exists m. tauto.
        * right. exists m. tauto.
        * left. exact H.
        * right. exists m'. tauto.
      + intros [H|[m' [[<-|Hm'] Hk]]].
        * tauto.
        * destruct Hk; tauto.
        * right. exists m'. tauto. }
  destruct (Hgen (messages g) s0 N0) as [H1 H2].
  split; [exact H1|]. intros k. rewrite H2, I0. simpl.
  intuition (subst; auto).
Qed.

Section MapLemmas.
Context {V : Type}.
Implicit Types (m : list (string * V)) (k : string) (v : V).

Lemma map_get_Some_In k m v : map_get k m = Some v -> In (k, v) m.
Proof.
  induction m as [|[k' v'] m IH]; simpl; [discriminate|].
  destruct (String.eqb_spec k k') as [->|]; [intros [= ->]; left; reflexivity|].
  intros H. right. apply IH, H.
Qed.

Lemma map_get_In_keys k m : In k (map fst m) <-> map_get k m <> None.
Proof.
  induction m as [|[k' v'] m IH]; simpl; [tauto|].
  destruct (String.eqb_spec k k') as [->|Hne].
  - split; [discriminate|tauto].
  - rewrite <- IH. split; [intros [H|H]; [congruence|exact H] | tauto].
Qed.

Lemma map_get_NoDup_In k v m : NoDup (map fst m) -> In (k, v) m -> map_get k m = Some v.
Proof.
  induction m as [|[k' v'] m IH]; simpl; [tauto|].
  intros Hnd Hin. inversion Hnd as [|? ? Hnot Hnd']; subst.
  destruct Hin as [[= -> ->]|Hin].
  - rewrite String.eqb_refl. reflexivity.
  - destruct (String.eqb_spec k k') as [->|Hne].
    + exfalso. apply Hnot. apply (in_map fst) in Hin. exact Hin.
    + apply IH; assumption.
Qed.

Lemma map_get_set_eq k v m : map_get k (map_set k v m) = Some v.
Proof.
  induction m as [|[k' v'] m IH]; simpl.
  - rewrite String.eqb_refl. reflexivity.
  - destruct (String.eqb_spec k k') as [->|Hne]; simpl.
    + rewrite String.eqb_refl. reflexivity.
    + destruct (String.eqb_spec k k'); [congruence|exact IH].
Qed.

Lemma map_get_set_neq k k' v m : k' <> k -> map_get k' (map_set k v m) = map_get k' m.
Proof.
  intros Hne. induction m as [|[k1 v1] m IH]; simpl.
  - destruct (String.eqb_spec k' k); [congruence|reflexivity].
  - destruct (String.eqb_spec k k1) as [->|Hne1]; simpl.
    + destruct (String.eqb_spec k' k1); [congruence|reflexivity].
    + destruct (String.eqb_spec k' k1); [reflexivity|exact IH].
Qed.

Lemma map_keys_set_in k v m : In k (map fst m) -> map fst (map_set k v m) = map fst m.
Proof.
  induction m as [|[k1 v1] m IH]; simpl; [tauto|].
  destruct (String.eqb_spec k k1) as [->|Hne]; simpl; [reflexivity|].
  intros [H|H]; [congruence|]. rewrite IH; [reflexivity|exact H].
Qed.

Lemma map_keys_set_notin k v m : ~ In k (map fst m) -> map fst (map_set k v m) = map fst m ++ [k].
Proof.
  induction m as [|[k1 v1] m IH]; simpl; [reflexivity|].
  destruct (String.eqb_spec k k1) as [->|Hne]; simpl; [tauto|].
  intros H. rewrite IH; [reflexivity|tauto].
Qed.

Lemma map_set_NoDup k v m : NoDup (map fst m) -> NoDup (map fst (map_set k v m)).
Proof.
  intros Hnd. destruct (in_dec string_dec k (map fst m)) as [Hin|Hout].
  - rewrite map_keys_set_in by exact Hin. exact Hnd.
  - rewrite map_keys_set_notin by exact Hout.
    apply NoDup_app; [exact Hnd|repeat constructor; simpl; tauto|].
    intros x Hx [<-|[]]. contradiction.
Qed.

Lemma map_set_set k v1 v2 m : map_set k v2 (map_set k v1 m) = map_set k v2 m.
Proof.
  induction m as [|[k1 w1] m IH]; simpl.
  - rewrite String.eqb_refl. reflexivity.
  - destruct (String.eqb_spec k k1) as [->|Hne]; simpl.
    + rewrite String.eqb_refl. reflexivity.
    + destruct (String.eqb_spec k k1); [congruence|]. rewrite IH. reflexivity.
Qed.

Lemma map_get_delete_neq k k' m : k' <> k -> map_get k' (map_delete k m) = map_get k' m.
Proof.
  intros Hne. induction m as [|[k1 v1] m IH]; simpl; [reflexivity|].
  destruct (String.eqb_spec k k1) as [->|Hne1]; simpl.
  - destruct (String.eqb_spec k' k1); [congruence|reflexivity].
  - destruct (String.eqb_spec k' k1); [reflexivity|exact IH].
Qed.

Lemma map_get_delete_eq k m : NoDup (map fst m) -> map_get k (map_delete k m) = None.
Proof.
  induction m as [|[k1 v1] m IH]; simpl; [reflexivity|].
  intros Hnd. inversion Hnd as [|? ? Hnot Hnd']; subst.
  destruct (String.eqb_spec k k1) as [->|Hne1]; simpl.
  - destruct (map_get k1 m) eqn:E; [|reflexivity].
    exfalso. apply Hnot. apply map_get_In_keys. congruence.
  - destruct (String.eqb_spec k k1); [congruence|]. apply IH, Hnd'.
Qed.

Lemma map_delete_keys_incl k m x : In x (map fst (map_delete k m)) -> In x (map fst m).
Proof.
  induction m as [|[k1 v1] m IH]; simpl; [tauto|].
  destruct (String.eqb_spec k k1); simpl; tauto.
Qed.

Lemma map_delete_NoDup k m : NoDup (map fst m) -> NoDup (map fst (map_delete k m)).
Proof.
  induction m as [|[k1 v1] m IH]; simpl; [tauto|].
  intros Hnd. inversion Hnd as [|? ? Hnot Hnd']; subst.
  destruct (String.eqb_spec k k1); [exact Hnd'|]. simpl. constructor.
  - intros H. apply Hnot. eapply map_delete_keys_incl; exact H.
  - apply IH, Hnd'.
Qed.

(** Two maps with no duplicate keys and the same lookups have the same
    keys up to order. *)
Lemma map_same_get_perm m1 m2 :
  NoDup (map fst m1) -> NoDup (map fst m2) ->
  (forall k, In k (map fst m1) <-> In k (map fst m2)) ->
  List.length m1 = List.length m2.
Proof.
  intros H1 H2 H. rewrite <- (length_map fst m1), <- (length_map fst m2).
  apply Permutation_length, NoDup_Permutation; assumption.
Qed.

End MapLemmas.

(** ** Effects of the scene operations *)

Lemma preserves_forEach {B A} (p : World -> B) (f : A -> M unit) (l : list A) :
  (forall x, In x l -> preserves p (f x)) -> preserves p (forEach f l).
Proof.
  induction l as [|x l IH]; intros Hf w; simpl; [reflexivity|].
  unfold seqM. rewrite IH by (intros y Hy; apply Hf; right; exact Hy).
  apply Hf. left. reflexivity.
Qed.

Lemma find_sprite_set t cs :
  find_sprite (set_sprite_map t cs) =
  match find_sprite cs with Some (m, _) => Some (m, t) | None => None end.
Proof.
  induction cs as [|[g m| |m t0] cs IH]; simpl; auto.
Qed.

Lemma sprite_b_with_sprite_map t d : sprite_b (with_sprite_map t d) = sprite_b d.
Proof.
  unfold sprite_b, with_sprite_map. simpl. rewrite find_sprite_set.
  destruct (find_sprite (desk_children d)) as [[]|]; reflexivity.
Qed.

(** Symbolic execution of straight-line scene code. *)
Ltac run_world :=
  lazy beta iota zeta delta [bind seqM ret fresh alloc dispose scene_add scene_remove
    meshes_get meshes_set meshes_delete emit modify gets push_line push_timer
    set_next set_live set_scene set_meshes set_lines set_timers set_log repeatM
    forEach List.seq numMarkers fst snd w_agentMeshes w_log w_next w_scene w_live
    w_connectionLines w_timers desk_pos desk_children desk_id sprite_b find_sprite].

Lemma createAgentDesk_spec name p t w :
  w_agentMeshes (snd (createAgentDesk name p t w)) =
    map_set name (fst (createAgentDesk name p t w)) (w_agentMeshes w) /\
  w_log (snd (createAgentDesk name p t w)) = w_log w ++ [EvCreate name] /\
  desk_pos (fst (createAgentDesk name p t w)) =
    {| pos_angle := pos_angle p; pos_radius := pos_radius p; pos_y := PLATFORM_HEIGHT |} /\
  sprite_b (fst (createAgentDesk name p t w)) = true.
Proof.
  unfold createAgentDesk. run_world. repeat split; reflexivity.
Qed.

Lemma updateDeskLabel_spec d name t w :
  w_agentMeshes (snd (updateDeskLabel d name t w)) =
    (if sprite_b d
     then map_set name (with_sprite_map (plain_label (w_next w) name t) d) (w_agentMeshes w)
     else w_agentMeshes w) /\
  w_log (snd (updateDeskLabel d name t w)) =
    w_log w ++ (if sprite_b d then [EvLabel name] else []).
Proof.
  unfold updateDeskLabel, sprite_b.
  destruct (find_sprite (desk_children d)); simpl; rewrite ?app_nil_r; split; reflexivity.
Qed.

Lemma createConnectionLine_meshes a b : preserves w_agentMeshes (createConnectionLine a b).
Proof. intros w. unfold createConnectionLine. run_world. reflexivity. Qed.

Lemma createConnectionLine_log a b : preserves w_log (createConnectionLine a b).
Proof. intros w. unfold createConnectionLine. run_world. reflexivity. Qed.

Lemma connect_message_meshes m : preserves w_agentMeshes (connect_message m).
Proof.
  intros w. unfold connect_message, bind, meshes_get, gets.
  destruct (map_get (toLowerCase (sender m)) (w_agentMeshes w)) as [f|];
  destruct (map_get (toLowerCase (recipient m)) (w_agentMeshes w)) as [t|];
  try reflexivity.
  destruct (not_read m); [apply createConnectionLine_meshes|reflexivity].
Qed.

Lemma connect_message_log m : preserves w_log (connect_message m).
Proof.
  intros w. unfold connect_message, bind, meshes_get, gets.
  destruct (map_get (toLowerCase (sender m)) (w_agentMeshes w)) as [f|];
  destruct (map_get (toLowerCase (recipient m)) (w_agentMeshes w)) as [t|];
  try reflexivity.
  destruct (not_read m); [apply createConnectionLine_log|reflexivity].
Qed.

Lemma clearConnections_run w :
  snd (clearConnections w) =
  set_lines [] (snd (forEach (fun l => scene_remove (t_id l)) (w_connectionLines w) w)).
Proof. reflexivity. Qed.

Lemma scene_remove_loop_preserves {B} (p : World -> B) ls :
  (forall w s, p (set_scene s w) = p w) ->
  preserves p (forEach (fun l : Transient => scene_remove (t_id l)) ls).
Proof.
  intros Hp. apply preserves_forEach. intros x _ w. apply Hp.
Qed.

Lemma clearConnections_meshes : preserves w_agentMeshes clearConnections.
Proof.
  intros w. rewrite clearConnections_run. simpl.
  apply scene_remove_loop_preserves. reflexivity.
Qed.

Lemma clearConnections_log : preserves w_log clearConnections.
Proof.
  intros w. rewrite clearConnections_run. simpl.
  apply scene_remove_loop_preserves. reflexivity.
Qed.

(** *** The placement loop *)

Lemma place_spec g n r a i w :
  exists d,
    w_agentMeshes (snd (place g n r a i w)) = map_set a d (w_agentMeshes w) /\
    desk_pos d = layout_pos i n r /\
    (old_sprite_ok (map_get a (w_agentMeshes w)) = true -> sprite_b d = true) /\
    w_log (snd (place g n r a i w)) =
      w_log w ++ match map_get a (w_agentMeshes w) with
                 | None => [EvCreate a]
                 | Some d0 => if sprite_b d0 then [EvLabel a] else []
                 end.
Proof.
  unfold place, bind, meshes_get, gets.
  destruct (map_get a (w_agentMeshes w)) as [d0|] eqn:E.
  - set (d1 := with_pos {| pos_angle := layout_angle i n; pos_radius := r;
                            pos_y := PLATFORM_HEIGHT |} d0).
    rewrite !run_seq.
    set (w1 := snd (meshes_set a d1 w)).
    destruct (updateDeskLabel_spec d1 a (toolName_of g (toLowerCase a)) w1) as [Hm Hl].
    rewrite Hm, Hl.
    assert (Hmw : w_agentMeshes w1 = map_set a d1 (w_agentMeshes w)) by reflexivity.
    assert (Hlw : w_log w1 = w_log w) by reflexivity.
    assert (Hs : sprite_b d1 = sprite_b d0) by reflexivity.
    rewrite Hmw, Hlw, Hs.
    destruct (sprite_b d0) eqn:Hsp.
    + eexists. split; [rewrite map_set_set; reflexivity|].
      split; [reflexivity|]. split; [|reflexivity].
      intros _. rewrite sprite_b_with_sprite_map. congruence.
    + exists d1. split; [reflexivity|]. split; [reflexivity|]. split; [|reflexivity].
      simpl. congruence.
  - destruct (createAgentDesk_spec a
                {| pos_angle := layout_angle i n; pos_radius := r; pos_y := 0 |}
                (toolName_of g (toLowerCase a)) w) as [Hm [Hl [Hp Hs]]].
    destruct (createAgentDesk a _ _ w) as [d w1] eqn:C.
    cbn [fst snd] in Hm, Hl, Hp, Hs |- *.
    exists d. split; [exact Hm|]. split; [rewrite Hp; reflexivity|].
    split; [intros _; exact Hs|exact Hl].
Qed.

Lemma place_loop g n r (l : list string) :
  forall i w, NoDup l ->
  let w' := snd (forEachi (place g n r) l i w) in
  (forall k, ~ In k l -> map_get k (w_agentMeshes w') = map_get k (w_agentMeshes w)) /\
  (forall j a, nth_error l j = Some a ->
     exists d, map_get a (w_agentMeshes w') = Some d /\
       desk_pos d = layout_pos (i + j) n r /\
       (old_sprite_ok (map_get a (w_agentMeshes w)) = true -> sprite_b d = true)) /\
  (NoDup (map fst (w_agentMeshes w)) -> NoDup (map fst (w_agentMeshes w'))).
Proof.
  induction l as [|a l IH]; intros i w Hnd; simpl.
  - split; [reflexivity|]. split; [|tauto].
    intros [|j] a H; discriminate.
  - inversion Hnd as [|? ? Hnot Hnd']; subst.
    rewrite run_seq.
    destruct (place_spec g n r a i w) as [d [Hm [Hp [Hs _]]]].
    set (w1 := snd (place g n r a i w)) in *.
    destruct (IH (S i) w1 Hnd') as [H1 [H2 H3]].
    split; [|split].
    + intros k Hk. rewrite H1 by tauto. rewrite Hm.
      apply map_get_set_neq. intros ->. apply Hk. left. reflexivity.
    + intros [|j] a' Hj; simpl in Hj.
      * injection Hj as <-. exists d. rewrite H1 by exact Hnot. rewrite Hm.
        rewrite map_get_set_eq. rewrite Nat.add_0_r. tauto.
      * destruct (H2 j a' Hj) as [d' [Hd' [Hp' Hs']]].
        assert (Hne : a' <> a).
        { intros ->. apply Hnot. eapply nth_error_In. exact Hj. }
        exists d'. split; [exact Hd'|]. split.
        -- rewrite Hp'. f_equal. lia.
        -- rewrite Hm, map_get_set_neq in Hs' by exact Hne. exact Hs'.
    + intros Hk. apply H3. rewrite Hm. apply map_set_NoDup, Hk.
Qed.

Lemma place_loop_log g n r (l : list string) :
  forall i w, NoDup l ->
  (forall a, In a l -> exists d, map_get a (w_agentMeshes w) = Some d /\ sprite_b d = true) ->
  w_log (snd (forEachi (place g n r) l i w)) = w_log w ++ map EvLabel l.
Proof.
  induction l as [|a l IH]; intros i w Hnd Hex; simpl.
  - rewrite app_nil_r. reflexivity.
  - inversion Hnd as [|? ? Hnot Hnd']; subst.
    rewrite run_seq.
    destruct (place_spec g n r a i w) as [d [Hm [Hp [Hs Hl]]]].
    destruct (Hex a (or_introl eq_refl)) as [d0 [E0 S0]].
    rewrite IH.
    + rewrite Hl, E0, S0, <- app_assoc. reflexivity.
    + exact Hnd'.
    + intros a' Ha'. rewrite Hm, map_get_set_neq.
      * apply Hex. right. exact Ha'.
      * intros ->. contradiction.
Qed.

(** *** The removal loop *)

Lemma dispose_loop_preserves {B} (p : World -> B) cs :
  (forall w l, p (set_live l w) = p w) -> preserves p (forEach dispose_node cs).
Proof.
  intros Hp. apply preserves_forEach. intros [geo mat| |m t] _ w;
  unfold dispose_node, seqM, dispose, modify, ret; cbn [snd]; rewrite ?Hp; reflexivity.
Qed.

Lemma remove_stale_spec A k0 d0 w :
  w_agentMeshes (snd (remove_stale A (k0, d0) w)) =
    (if set_has k0 A then w_agentMeshes w else map_delete k0 (w_agentMeshes w)) /\
  w_log (snd (remove_stale A (k0, d0) w)) =
    w_log w ++ (if set_has k0 A then [] else [EvRemove k0]).
Proof.
  unfold remove_stale. destruct (set_has k0 A).
  - rewrite app_nil_r. split; reflexivity.
  - rewrite !run_seq. cbn [snd emit meshes_delete modify].
    set (w1 := snd (forEach dispose_node (desk_children d0) (snd (scene_remove (desk_id d0) w)))).
    assert (Hm : w_agentMeshes w1 = w_agentMeshes w).
    { unfold w1. rewrite (dispose_loop_preserves w_agentMeshes); reflexivity. }
    assert (Hl : w_log w1 = w_log w).
    { unfold w1. rewrite (dispose_loop_preserves w_log); reflexivity. }
    simpl. rewrite Hm, Hl. split; reflexivity.
Qed.

Lemma remove_loop A (l : list (string * Desk)) :
  forall w, NoDup (map fst (w_agentMeshes w)) ->
  let w' := snd (forEach (remove_stale A) l w) in
  NoDup (map fst (w_agentMeshes w')) /\
  forall k, map_get k (w_agentMeshes w') =
    if set_has k A then map_get k (w_agentMeshes w)
    else if existsb (String.eqb k) (map fst l) then None
    else map_get k (w_agentMeshes w).
Proof.
  induction l as [|[k0 d0] l IH]; intros w Hnd; simpl.
  - split; [exact Hnd|]. intros k. destruct (set_has k A); reflexivity.
  - rewrite run_seq.
    destruct (remove_stale_spec A k0 d0 w) as [Hm _].
    set (w1 := snd (remove_stale A (k0, d0) w)) in *.
    assert (Hnd1 : NoDup (map fst (w_agentMeshes w1))).
    { rewrite Hm. destruct (set_has k0 A); [exact Hnd|apply map_delete_NoDup, Hnd]. }
    destruct (IH w1 Hnd1) as [H1 H2]. split; [exact H1|].
    intros k. rewrite H2, Hm.
    destruct (set_has k A) eqn:Ek.
    + destruct (set_has k0 A) eqn:Ek0; [reflexivity|].
      rewrite map_get_delete_neq; [reflexivity|]. intros ->. congruence.
    + destruct (String.eqb_spec k k0) as [->|Hne]; simpl.
      * destruct (existsb (String.eqb k0) (map fst l)); [reflexivity|].
        rewrite Ek. apply map_get_delete_eq, Hnd.
      * destruct (existsb (String.eqb k) (map fst l)); [reflexivity|].
        destruct (set_has k0 A); [reflexivity|].
        apply map_get_delete_neq. exact Hne.
Qed.

Lemma remove_loop_log A (l : list (string * Desk)) :
  forall w, (forall k, In k (map fst l) -> set_has k A = true) ->
  w_log (snd (forEach (remove_stale A) l w)) = w_log w.
Proof.
  induction l as [|[k0 d0] l IH]; intros w Hk; cbn [forEach]; [reflexivity|].
  rewrite run_seq, IH by (intros k Hin; apply Hk; right; exact Hin).
  destruct (remove_stale_spec A k0 d0 w) as [_ Hl]. rewrite Hl.
  rewrite (Hk k0 (or_introl eq_refl)). apply app_nil_r.
Qed.

(** *** The label loop *)

Lemma relabel_spec g k d w :
  w_agentMeshes (snd (relabel g (k, d) w)) =
    (if sprite_b d
     then map_set k (with_sprite_map (relabel_tex g (w_next w) k) d) (w_agentMeshes w)
     else w_agentMeshes w) /\
  w_log (snd (relabel g (k, d) w)) = w_log w ++ (if sprite_b d then [EvLabel k] else []).
Proof.
  unfold relabel, sprite_b. destruct (find_sprite (desk_children d)); simpl;
  rewrite ?app_nil_r; split; reflexivity.
Qed.

Lemma relabel_loop g (l : list (string * Desk)) :
  forall w, NoDup (map fst l) ->
  let w' := snd (forEach (relabel g) l w) in
  (forall k, ~ In k (map fst l) ->
     map_get k (w_agentMeshes w') = map_get k (w_agentMeshes w)) /\
  (forall k d, In (k, d) l ->
     if sprite_b d
     then exists h, map_get k (w_agentMeshes w') = Some (with_sprite_map (relabel_tex g h k) d)
     else map_get k (w_agentMeshes w') = map_get k (w_agentMeshes w)) /\
  ((forall k, In k (map fst l) -> In k (map fst (w_agentMeshes w))) ->
     map fst (w_agentMeshes w') = map fst (w_agentMeshes w)).
Proof.
  induction l as [|[k0 d0] l IH]; intros w Hnd; cbn [forEach].
  - split; [reflexivity|]. split; [intros k d []|reflexivity].
  - simpl in Hnd. inversion Hnd as [|? ? Hnot Hnd']; subst.
    rewrite run_seq.
    destruct (relabel_spec g k0 d0 w) as [Hm _].
    set (w1 := snd (relabel g (k0, d0) w)) in *.
    assert (Hother : forall k, k <> k0 ->
              map_get k (w_agentMeshes w1) = map_get k (w_agentMeshes w)).
    { intros k Hne. rewrite Hm. destruct (sprite_b d0); [|reflexivity].
      apply map_get_set_neq. exact Hne. }
    destruct (IH w1 Hnd') as [H1 [H2 H3]].
    split; [|split].
    + intros k Hk. simpl in Hk. rewrite H1 by tauto. apply Hother. intros ->. tauto.
    + intros k d [[= <- <-]|Hin].
      * rewrite H1 by exact Hnot. rewrite Hm.
        destruct (sprite_b d0); [|reflexivity].
        eexists. apply map_get_set_eq.
      * assert (Hne : k <> k0).
        { intros ->. apply Hnot. apply (in_map fst) in Hin. exact Hin. }
        specialize (H2 k d Hin). destruct (sprite_b d); [exact H2|].
        rewrite H2. apply Hother, Hne.
    + intros Hk. rewrite H3.
      * rewrite Hm. destruct (sprite_b d0); [|reflexivity].
        apply map_keys_set_in. apply Hk. left. reflexivity.
      * intros k Hin. assert (Hkw : map fst (w_agentMeshes w1) = map fst (w_agentMeshes w)).
        { rewrite Hm. destruct (sprite_b d0); [|reflexivity].
          apply map_keys_set_in. apply Hk. left. reflexivity. }
        rewrite Hkw. apply Hk. right. exact Hin.
Qed.

Lemma relabel_loop_log g (l : list (string * Desk)) :
  forall w, w_log (snd (forEach (relabel g) l w)) =
    w_log w ++ map (fun e => EvLabel (fst e)) (filter (fun e => sprite_b (snd e)) l).
Proof.
  induction l as [|[k0 d0] l IH]; intros w; cbn [forEach].
  - rewrite app_nil_r. reflexivity.
  - rewrite run_seq, IH. destruct (relabel_spec g k0 d0 w) as [_ Hl]. rewrite Hl.
    simpl. destruct (sprite_b d0); simpl; rewrite <- ?app_assoc; reflexivity.
Qed.

(** *** A whole reconciliation pass *)

Lemma updateVillage_run g w :
  snd (updateVillage g w) =
  let A := agent_set g in
  let w1 := snd (clearConnections w) in
  let w2 := snd (forEachi (place g (List.length A) (layout_radius (List.length A))) A 0 w1) in
  let w3 := snd (forEach (remove_stale A) (w_agentMeshes w2) w2) in
  let w4 := snd (forEach connect_message (allMessages g) w3) in
  snd (forEach (relabel g) (w_agentMeshes w4) w4).
Proof. reflexivity. Qed.

Lemma with_sprite_map_pos t d : desk_pos (with_sprite_map t d) = desk_pos d.
Proof. reflexivity. Qed.

Lemma updateVillage_meshes g w :
  NoDup (map fst (w_agentMeshes w)) ->
  let A := agent_set g in
  let n := List.length A in
  let w' := snd (updateVillage g w) in
  NoDup (map fst (w_agentMeshes w')) /\
  (forall k, In k (map fst (w_agentMeshes w')) <-> In k A) /\
  (forall i a, nth_error A i = Some a ->
     exists d, map_get a (w_agentMeshes w') = Some d /\
       desk_pos d = layout_pos i n (layout_radius n) /\
       (old_sprite_ok (map_get a (w_agentMeshes w)) = true -> sprite_b d = true)).
Proof.
  intros Hnd. cbv zeta. rewrite updateVillage_run. cbv zeta.
  set (A := agent_set g). set (n := List.length A).
  destruct (agent_set_spec g) as [HA _]. fold A in HA.
  set (w1 := snd (clearConnections w)).
  assert (Hm1 : w_agentMeshes w1 = w_agentMeshes w) by apply clearConnections_meshes.
  set (w2 := snd (forEachi (place g n (layout_radius n)) A 0 w1)).
  destruct (place_loop g n (layout_radius n) A 0 w1 HA)
    as [P1 [P2 P3]]. fold w2 in P1, P2, P3.
  rewrite Hm1 in P1, P2, P3. specialize (P3 Hnd).
  set (w3 := snd (forEach (remove_stale A) (w_agentMeshes w2) w2)).
  destruct (remove_loop A (w_agentMeshes w2) w2 P3) as [R1 R2]. fold w3 in R1, R2.
  set (w4 := snd (forEach connect_message (allMessages g) w3)).
  assert (Hm4 : w_agentMeshes w4 = w_agentMeshes w3).
  { apply preserves_forEach. intros m _. apply connect_message_meshes. }
  assert (Hnd4 : NoDup (map fst (w_agentMeshes w4))) by (rewrite Hm4; exact R1).
  destruct (relabel_loop g (w_agentMeshes w4) w4 Hnd4) as [L1 [L2 L3]].
  specialize (L3 (fun k H => H)).
  (* lookups in w3 *)
  assert (G3 : forall i a, nth_error A i = Some a ->
     exists d, map_get a (w_agentMeshes w3) = Some d /\
       desk_pos d = layout_pos i n (layout_radius n) /\
       (old_sprite_ok (map_get a (w_agentMeshes w)) = true -> sprite_b d = true)).
  { intros i a Hi. destruct (P2 i a Hi) as [d [Hd [Hp Hs]]].
    exists d. rewrite R2.
    assert (Ha : set_has a A = true) by (apply set_has_In; eapply nth_error_In; exact Hi).
    rewrite Ha. simpl in Hp. tauto. }
  assert (K3 : forall k, In k (map fst (w_agentMeshes w3)) <-> In k A).
  { intros k. rewrite map_get_In_keys. split.
    - intros Hk. destruct (set_has k A) eqn:E; [apply set_has_In, E|].
      exfalso. apply Hk. rewrite R2, E.
      destruct (existsb (String.eqb k) (map fst (w_agentMeshes w2))) eqn:X; [reflexivity|].
      destruct (map_get k (w_agentMeshes w2)) eqn:G; [|reflexivity].
      exfalso. assert (Hin : In k (map fst (w_agentMeshes w2))) by
        (apply map_get_In_keys; congruence).
      apply (proj2 (set_has_In k _)) in Hin. unfold set_has in Hin. congruence.
    - intros Hk. destruct (In_nth_error _ _ Hk) as [i Hi].
      destruct (G3 i k Hi) as [d [Hd _]]. congruence. }
  split; [|split].
  - rewrite L3. exact Hnd4.
  - intros k. rewrite L3, Hm4. apply K3.
  - intros i a Hi. destruct (G3 i a Hi) as [d [Hd [Hp Hs]]].
    rewrite <- Hm4 in Hd.
    specialize (L2 a d (map_get_Some_In _ _ _ Hd)).
    destruct (sprite_b d) eqn:Sd.
    + destruct L2 as [h Hh]. eexists. split; [exact Hh|].
      split; [rewrite with_sprite_map_pos; exact Hp|].
      intros _. rewrite sprite_b_with_sprite_map. exact Sd.
    + exists d. rewrite L2. split; [exact Hd|]. split; [exact Hp|]. rewrite Sd. exact Hs.
Qed.

(** ** Layout arithmetic *)

Lemma layout_angle_formula i n :
  (0 < n)%nat ->
  layout_angle i n == inject_Z (Z.of_nat i) / inject_Z (Z.of_nat n) * 2 - (1 # 2).
Proof.
  intros Hn. unfold layout_angle. destruct n as [|n]; [lia|].
  rewrite Qmake_Qdiv. rewrite <- Pos.of_nat_succ, Zpos_P_of_succ_nat, <- Nat2Z.inj_succ.
  reflexivity.
Qed.

Lemma layout_angle_range i n :
  (i < n)%nat -> -(1 # 2) <= layout_angle i n /\ layout_angle i n < 3 # 2.
Proof.
  intros Hi. unfold layout_angle. destruct n as [|n]; [lia|].
  rewrite <- Pos.of_nat_succ.
  pose proof (Zpos_P_of_succ_nat n) as Hp.
  generalize dependent (Pos.of_succ_nat n); intros p Hp.
  unfold Qle, Qlt, Qminus, Qplus, Qmult, Qopp; simpl.
  split; nia.
Qed.

Lemma layout_angle_inj i j n :
  (i < n)%nat -> (j < n)%nat -> layout_angle i n == layout_angle j n -> i = j.
Proof.
  intros Hi Hj. unfold layout_angle. destruct n as [|n]; [lia|].
  rewrite <- Pos.of_nat_succ.
  pose proof (Zpos_P_of_succ_nat n) as Hp.
  generalize dependent (Pos.of_succ_nat n); intros p Hp.
  unfold Qeq, Qminus, Qplus, Qmult, Qopp; simpl.
  intros H. nia.
Qed.

Lemma layout_radius_bounds n : (10 <= layout_radius n <= 20)%Z.
Proof. unfold layout_radius. lia. Qed.

(** ** Identity set and layout *)

(** C1 (as the code does it): the identity set of a pass is the lowercased
    union of the user, the roster and the sender and recipient of every
    message of the inbox [messages]; after the pass the keys of
    [agentMeshes] are that set, each exactly once. *)
Theorem updateVillage_identity_set (g : Globals) (w : World) :
  NoDup (map fst (w_agentMeshes w)) ->
  (forall k, In k (agent_set g) <->
     k = toLowerCase (user (config g)) \/ In k (map toLowerCase (recipients g)) \/
     exists m, In m (messages g) /\
       (k = toLowerCase (sender m) \/ k = toLowerCase (recipient m))) /\
  NoDup (map fst (w_agentMeshes (snd (updateVillage g w)))) /\
  (forall k, In k (map fst (w_agentMeshes (snd (updateVillage g w)))) <-> In k (agent_set g)).
Proof.
  intros Hnd. destruct (agent_set_spec g) as [_ HA].
  destruct (updateVillage_meshes g w Hnd) as [H1 [H2 _]].
  split; [exact HA|]. split; [exact H1|exact H2].
Qed.

Lemma updateVillage_identity_set_witness :
  NoDup (map fst (w_agentMeshes init_world)) /\
  (forall k, In k (agent_set carol_snapshot) <->
     k = toLowerCase (user (config carol_snapshot)) \/
     In k (map toLowerCase (recipients carol_snapshot)) \/
     exists m, In m (messages carol_snapshot) /\
       (k = toLowerCase (sender m) \/ k = toLowerCase (recipient m))) /\
  NoDup (map fst (w_agentMeshes (snd (updateVillage carol_snapshot init_world)))) /\
  (forall k, In k (map fst (w_agentMeshes (snd (updateVillage carol_snapshot init_world))))
     <-> In k (agent_set carol_snapshot)).
Proof.
  split; [constructor|].
  apply (updateVillage_identity_set carol_snapshot init_world). constructor.
Defined.

(** C1 counterexample: a message between dave and erin is in the history
    [allMessages] but not in carol's inbox; neither dave nor erin joins the
    identity set, and the pass leaves carol's desk only. *)
Lemma identity_set_ignores_history :
  In (msg 7 "dave" "erin" 0) (allMessages dave_erin_snapshot) /\
  ~ In "dave"%string (agent_set dave_erin_snapshot) /\
  map fst (w_agentMeshes (snd (updateVillage dave_erin_snapshot init_world))) =
    ["carol"%string].
Proof.
  split; [left; reflexivity|]. split.
  - vm_compute. intros [H|[]]. discriminate.
  - vm_compute. reflexivity.
Qed.

(** C3: with [N] the size of the identity set, the pass leaves exactly [N]
    desks; the identity at index [i] of [Array.from(allAgents)] stands at
    angle [(i / N) * 2 - 1/2] (in units of [PI]: [(i / N) * 2PI] rotated by
    [-PI/2]), on the circle of radius [min(20, max(10, 3N))], at height
    [PLATFORM_HEIGHT]; the angles lie in [[-1/2, 3/2)] and are pairwise
    distinct. *)
Theorem updateVillage_layout (g : Globals) (w : World) :
  NoDup (map fst (w_agentMeshes w)) ->
  let A := agent_set g in
  let N := List.length A in
  let w' := snd (updateVillage g w) in
  List.length (w_agentMeshes w') = N /\
  (10 <= layout_radius N <= 20)%Z /\
  layout_radius N = Z.min 20 (Z.max 10 (Z.of_nat N * 3)) /\
  (forall i a, nth_error A i = Some a ->
     exists d, map_get a (w_agentMeshes w') = Some d /\
       pos_angle (desk_pos d) ==
         inject_Z (Z.of_nat i) / inject_Z (Z.of_nat N) * 2 - (1 # 2) /\
       -(1 # 2) <= pos_angle (desk_pos d) < 3 # 2 /\
       pos_radius (desk_pos d) = layout_radius N /\
       pos_y (desk_pos d) = PLATFORM_HEIGHT) /\
  (forall i j a b da db, nth_error A i = Some a -> nth_error A j = Some b ->
     map_get a (w_agentMeshes w') = Some da -> map_get b (w_agentMeshes w') = Some db ->
     i <> j -> ~ pos_angle (desk_pos da) == pos_angle (desk_pos db)).
Proof.
  intros Hnd A N w'.
  destruct (agent_set_spec g) as [HA _]. fold A in HA.
  destruct (updateVillage_meshes g w Hnd) as [H1 [H2 H3]].
  fold A N w' in H1, H2, H3.
  assert (Hlt : forall i a, nth_error A i = Some a -> (i < N)%nat).
  { intros i a Hi. apply nth_error_Some. congruence. }
  split; [|split; [apply layout_radius_bounds|split; [reflexivity|split]]].
  - unfold N. rewrite <- (length_map fst (w_agentMeshes w')).
    apply Permutation_length, NoDup_Permutation; [exact H1|exact HA|exact H2].
  - intros i a Hi. destruct (H3 i a Hi) as [d [Hd [Hp _]]].
    exists d. rewrite Hp. unfold layout_pos; cbn [pos_angle pos_radius pos_y].
    split; [exact Hd|]. split; [apply layout_angle_formula; specialize (Hlt i a Hi); lia|].
    split; [apply layout_angle_range, (Hlt i a Hi)|]. split; reflexivity.
  - intros i j a b da db Hi Hj Ha Hb Hij Heq.
    destruct (H3 i a Hi) as [d1 [Hd1 [Hp1 _]]].
    destruct (H3 j b Hj) as [d2 [Hd2 [Hp2 _]]].
    rewrite Ha in Hd1. rewrite Hb in Hd2. injection Hd1 as ->. injection Hd2 as ->.
    rewrite Hp1, Hp2 in Heq. unfold layout_pos in Heq; cbn [pos_angle] in Heq.
    apply Hij. eapply layout_angle_inj; [exact (Hlt i a Hi)|exact (Hlt j b Hj)|exact Heq].
Qed.

Lemma updateVillage_layout_witness :
  NoDup (map fst (w_agentMeshes init_world)) /\
  (let A := agent_set carol_snapshot in
   let N := List.length A in
   let w' := snd (updateVillage carol_snapshot init_world) in
   List.length (w_agentMeshes w') = N /\
   (10 <= layout_radius N <= 20)%Z /\
   layout_radius N = Z.min 20 (Z.max 10 (Z.of_nat N * 3)) /\
   (forall i a, nth_error A i = Some a ->
      exists d, map_get a (w_agentMeshes w') = Some d /\
        pos_angle (desk_pos d) ==
          inject_Z (Z.of_nat i) / inject_Z (Z.of_nat N) * 2 - (1 # 2) /\
        -(1 # 2) <= pos_angle (desk_pos d) < 3 # 2 /\
        pos_radius (desk_pos d) = layout_radius N /\
        pos_y (desk_pos d) = PLATFORM_HEIGHT) /\
   (forall i j a b da db, nth_error A i = Some a -> nth_error A j = Some b ->
      map_get a (w_agentMeshes w') = Some da -> map_get b (w_agentMeshes w') = Some db ->
      i <> j -> ~ pos_angle (desk_pos da) == pos_angle (desk_pos db))).
Proof.
  split; [constructor|].
  apply (updateVillage_layout carol_snapshot init_world). constructor.
Defined.

(** ** Connectors *)

Lemma preserves_forEachi {B A} (p : World -> B) (f : A -> nat -> M unit) (l : list A) :
  (forall x i, preserves p (f x i)) -> forall i, preserves p (forEachi f l i).
Proof.
  intros Hf. induction l as [|x l IH]; intros i w; simpl; [reflexivity|].
  unfold seqM. rewrite IH. apply Hf.
Qed.

Lemma place_lines g n r a i : preserves w_connectionLines (place g n r a i).
Proof.
  intros w. unfold place, bind, meshes_get, gets.
  destruct (map_get a (w_agentMeshes w)) as [d|].
  - unfold updateDeskLabel. rewrite run_seq.
    destruct (find_sprite _); reflexivity.
  - unfold createAgentDesk. run_world. reflexivity.
Qed.

Lemma remove_stale_lines A e : preserves w_connectionLines (remove_stale A e).
Proof.
  intros w. destruct e as [k d]. unfold remove_stale.
  destruct (set_has k A); [reflexivity|].
  rewrite !run_seq. cbn [emit meshes_delete modify snd].
  cbn [w_connectionLines set_log set_meshes].
  rewrite (dispose_loop_preserves w_connectionLines); reflexivity.
Qed.

Lemma createConnectionLine_view a b w :
  map conn_view (w_connectionLines (snd (createConnectionLine a b w))) =
  map conn_view (w_connectionLines w) ++ (TLine, a, b) :: repeat (TMarker, a, b) numMarkers.
Proof.
  unfold createConnectionLine. run_world. rewrite !map_app. simpl.
  rewrite <- !app_assoc. reflexivity.
Qed.

Lemma connect_loop_view (l : list Message) :
  forall w, map conn_view (w_connectionLines (snd (forEach connect_message l w))) =
    map conn_view (w_connectionLines w) ++ flat_map (conn_block (w_agentMeshes w)) l.
Proof.
  induction l as [|m l IH]; intros w; cbn [forEach flat_map].
  - rewrite app_nil_r. reflexivity.
  - rewrite run_seq, IH, (connect_message_meshes m w), app_assoc. f_equal.
    unfold connect_message, conn_block, bind, meshes_get, gets. cbn [fst snd].
    destruct (map_get (toLowerCase (sender m)) (w_agentMeshes w)) as [f|];
    destruct (map_get (toLowerCase (recipient m)) (w_agentMeshes w)) as [t|];
    try (rewrite app_nil_r; reflexivity).
    destruct (not_read m); [apply createConnectionLine_view|symmetry; apply app_nil_r].
Qed.

Lemma conn_block_count ms (l : list Message) :
  List.length (filter (fun x => match fst (fst x) with TLine => true | TMarker => false end)
                 (flat_map (conn_block ms) l)) =
  List.length (filter (connectable ms) l).
Proof.
  induction l as [|m l IH]; [reflexivity|].
  cbn [flat_map filter]. rewrite filter_app, length_app, IH.
  destruct (connectable ms m) eqn:C; unfold conn_block; unfold connectable, map_has in C;
  destruct (map_get (toLowerCase (sender m)) ms);
  destruct (map_get (toLowerCase (recipient m)) ms);
  destruct (not_read m); simpl in C; try discriminate; reflexivity.
Qed.

Lemma conn_block_same_pos ms1 ms2 m :
  (forall k, option_map desk_pos (map_get k ms1) = option_map desk_pos (map_get k ms2)) ->
  conn_block ms1 m = conn_block ms2 m /\ connectable ms1 m = connectable ms2 m.
Proof.
  intros H. unfold conn_block, connectable, map_has.
  pose proof (H (toLowerCase (sender m))) as Hs.
  pose proof (H (toLowerCase (recipient m))) as Hr.
  destruct (map_get (toLowerCase (sender m)) ms1);
  destruct (map_get (toLowerCase (sender m)) ms2); try discriminate;
  destruct (map_get (toLowerCase (recipient m)) ms1);
  destruct (map_get (toLowerCase (recipient m)) ms2); try discriminate;
  simpl in Hs, Hr; try (split; reflexivity).
  injection Hs as ->. injection Hr as ->. split; reflexivity.
Qed.

Lemma relabel_lines g e : preserves w_connectionLines (relabel g e).
Proof.
  intros w. destruct e as [k d]. unfold relabel.
  destruct (find_sprite (desk_children d)); reflexivity.
Qed.

Lemma relabel_loop_pos g w :
  NoDup (map fst (w_agentMeshes w)) ->
  forall k, option_map desk_pos
              (map_get k (w_agentMeshes (snd (forEach (relabel g) (w_agentMeshes w) w)))) =
            option_map desk_pos (map_get k (w_agentMeshes w)).
Proof.
  intros Hnd k. destruct (relabel_loop g (w_agentMeshes w) w Hnd) as [L1 [L2 _]].
  destruct (map_get k (w_agentMeshes w)) as [d|] eqn:E.
  - specialize (L2 k d (map_get_Some_In _ _ _ E)).
    destruct (sprite_b d).
    + destruct L2 as [h Hh]. rewrite Hh. reflexivity.
    + rewrite L2, E. reflexivity.
  - rewrite L1; [rewrite E; reflexivity|].
    rewrite map_get_In_keys. congruence.
Qed.

Lemma is_line_view (ls : list Transient) :
  List.length (filter is_line ls) =
  List.length (filter (fun x => match fst (fst x) with TLine => true | TMarker => false end)
                 (map conn_view ls)).
Proof.
  induction ls as [|t ls IH]; [reflexivity|]. cbn [filter map].
  unfold is_line at 1. unfold conn_view at 1. cbn [fst].
  destruct (t_kind t); cbn [List.length]; rewrite IH; reflexivity.
Qed.

Lemma updateVillage_lines_view g w :
  NoDup (map fst (w_agentMeshes w)) ->
  let w' := snd (updateVillage g w) in
  map conn_view (w_connectionLines w') =
    flat_map (conn_block (w_agentMeshes w')) (allMessages g).
Proof.
  intros Hnd. cbv zeta. rewrite updateVillage_run. cbv zeta.
  set (A := agent_set g). set (n := List.length A).
  destruct (agent_set_spec g) as [HA _]. fold A in HA.
  set (w1 := snd (clearConnections w)).
  assert (Hm1 : w_agentMeshes w1 = w_agentMeshes w) by apply clearConnections_meshes.
  assert (Hl1 : w_connectionLines w1 = []).
  { unfold w1. rewrite clearConnections_run. reflexivity. }
  set (w2 := snd (forEachi (place g n (layout_radius n)) A 0 w1)).
  destruct (place_loop g n (layout_radius n) A 0 w1 HA) as [_ [_ P3]].
  fold w2 in P3. rewrite Hm1 in P3. specialize (P3 Hnd).
  assert (Hl2 : w_connectionLines w2 = []).
  { unfold w2. rewrite (preserves_forEachi w_connectionLines); [exact Hl1|].
    intros x i. apply place_lines. }
  set (w3 := snd (forEach (remove_stale A) (w_agentMeshes w2) w2)).
  destruct (remove_loop A (w_agentMeshes w2) w2 P3) as [R1 _]. fold w3 in R1.
  assert (Hl3 : w_connectionLines w3 = []).
  { unfold w3. rewrite preserves_forEach; [exact Hl2|].
    intros x _. apply remove_stale_lines. }
  set (w4 := snd (forEach connect_message (allMessages g) w3)).
  assert (Hm4 : w_agentMeshes w4 = w_agentMeshes w3).
  { apply preserves_forEach. intros m _. apply connect_message_meshes. }
  assert (Hv4 : map conn_view (w_connectionLines w4) =
                flat_map (conn_block (w_agentMeshes w3)) (allMessages g)).
  { unfold w4. rewrite connect_loop_view, Hl3. reflexivity. }
  assert (Hnd4 : NoDup (map fst (w_agentMeshes w4))) by (rewrite Hm4; exact R1).
  rewrite (preserves_forEach w_connectionLines) by (intros x _; apply relabel_lines).
  rewrite Hv4, <- Hm4.
  apply flat_map_ext. intros m.
  symmetry. apply conn_block_same_pos. apply relabel_loop_pos, Hnd4.
Qed.

(** C2: after a pass, [connectionLines] holds, message by message in the
    order of [allMessages], one curve [Line] followed by [numMarkers] cone
    markers, between the two desks, for each unread message whose sender and
    recipient both have a desk in [agentMeshes], and nothing for any other
    message; hence the number of connectors is the number of such
    messages. *)
Theorem updateVillage_connectors (g : Globals) (w : World) :
  NoDup (map fst (w_agentMeshes w)) ->
  let w' := snd (updateVillage g w) in
  let ms := w_agentMeshes w' in
  map conn_view (w_connectionLines w') = flat_map (conn_block ms) (allMessages g) /\
  (forall m, conn_block ms m =
     if connectable ms m then
       match map_get (toLowerCase (sender m)) ms, map_get (toLowerCase (recipient m)) ms with
       | Some f, Some t =>
           (TLine, desk_pos f, desk_pos t) :: repeat (TMarker, desk_pos f, desk_pos t) numMarkers
       | _, _ => []
       end
     else []) /\
  List.length (filter is_line (w_connectionLines w')) =
    List.length (filter (connectable ms) (allMessages g)).
Proof.
  intros Hnd w' ms.
  pose proof (updateVillage_lines_view g w Hnd) as Hv. fold w' ms in Hv.
  split; [exact Hv|]. split.
  - intros m. unfold conn_block, connectable, map_has.
    destruct (map_get (toLowerCase (sender m)) ms);
    destruct (map_get (toLowerCase (recipient m)) ms);
    destruct (not_read m); reflexivity.
  - rewrite is_line_view, Hv. apply conn_block_count.
Qed.

Lemma updateVillage_connectors_witness :
  NoDup (map fst (w_agentMeshes init_world)) /\
  (let w' := snd (updateVillage carol_snapshot init_world) in
   let ms := w_agentMeshes w' in
   map conn_view (w_connectionLines w') = flat_map (conn_block ms) (allMessages carol_snapshot) /\
   (forall m, conn_block ms m =
      if connectable ms m then
        match map_get (toLowerCase (sender m)) ms, map_get (toLowerCase (recipient m)) ms with
        | Some f, Some t =>
            (TLine, desk_pos f, desk_pos t) :: repeat (TMarker, desk_pos f, desk_pos t) numMarkers
        | _, _ => []
        end
      else []) /\
   List.length (filter is_line (w_connectionLines w')) =
     List.length (filter (connectable ms) (allMessages carol_snapshot))).
Proof.
  split; [constructor|].
  apply (updateVillage_connectors carol_snapshot init_world). constructor.
Defined.

(** ** Label badges *)

Lemma updateDeskLabels_run g w :
  updateDeskLabels g w = forEach (relabel g) (w_agentMeshes w) w.
Proof. reflexivity. Qed.

(** C9: after [updateDeskLabels], the label of every desk that has a
    sprite is redrawn with the alert colours and the count [unreadFromAgent]
    whenever that count is positive, whatever [unreadCount] is (so never
    with the informational colours then); with the informational colours
    and [unreadCount] when [unreadFromAgent] is 0 and [unreadCount] is
    positive; and with the neutral colours and no count when both are 0. *)
Theorem updateDeskLabels_badge (g : Globals) (w : World) (name : string) (desk : Desk) :
  NoDup (map fst (w_agentMeshes w)) ->
  In (name, desk) (w_agentMeshes w) ->
  sprite_b desk = true ->
  exists d' m t,
    map_get name (w_agentMeshes (snd (updateDeskLabels g w))) = Some d' /\
    find_sprite (desk_children d') = Some (m, t) /\
    tex_name t = name /\
    ((0 < unreadFromAgent g name)%nat ->
       tex_fill t = alert_fill /\ tex_stroke t = alert_stroke /\
       tex_fill t <> info_fill /\ tex_count t = Some (unreadFromAgent g name)) /\
    (unreadFromAgent g name = 0%nat -> (0 < unreadCount g name)%nat ->
       tex_fill t = info_fill /\ tex_stroke t = info_stroke /\
       tex_count t = Some (unreadCount g name)) /\
    (unreadFromAgent g name = 0%nat -> unreadCount g name = 0%nat ->
       tex_fill t = neutral_fill /\ tex_stroke t = neutral_stroke /\ tex_count t = None).
Proof.
  intros Hnd Hin Hs.
  rewrite updateDeskLabels_run.
  destruct (relabel_loop g (w_agentMeshes w) w Hnd) as [_ [L2 _]].
  specialize (L2 name desk Hin). rewrite Hs in L2. destruct L2 as [h Hh].
  unfold sprite_b in Hs.
  destruct (find_sprite (desk_children desk)) as [[m t0]|] eqn:F; [|discriminate].
  exists (with_sprite_map (relabel_tex g h name) desk), m, (relabel_tex g h name).
  split; [exact Hh|]. split.
  { unfold with_sprite_map. cbn [desk_children]. rewrite find_sprite_set, F. reflexivity. }
  split; [reflexivity|].
  unfold relabel_tex, unread_label. cbn [tex_fill tex_stroke tex_count].
  split; [|split].
  - intros Ha. apply Nat.ltb_lt in Ha. rewrite Ha.
    repeat split; try reflexivity. discriminate.
  - intros Ha Hc. rewrite Ha. apply Nat.ltb_lt in Hc. rewrite Hc.
    repeat split; reflexivity.
  - intros Ha Hc. rewrite Ha, Hc. repeat split; reflexivity.
Qed.

Lemma updateDeskLabels_badge_witness :
  NoDup (map fst (w_agentMeshes alice_world)) /\
  In ("alice"%string, label_only_desk "alice") (w_agentMeshes alice_world) /\
  sprite_b (label_only_desk "alice") = true /\
  unreadFromAgent both_ways_snapshot "alice" = 1%nat /\
  unreadCount both_ways_snapshot "alice" = 1%nat /\
  exists d' m t,
    map_get "alice" (w_agentMeshes (snd (updateDeskLabels both_ways_snapshot alice_world)))
      = Some d' /\
    find_sprite (desk_children d') = Some (m, t) /\
    tex_name t = "alice"%string /\
    ((0 < unreadFromAgent both_ways_snapshot "alice")%nat ->
       tex_fill t = alert_fill /\ tex_stroke t = alert_stroke /\
       tex_fill t <> info_fill /\ tex_count t = Some (unreadFromAgent both_ways_snapshot "alice")) /\
    (unreadFromAgent both_ways_snapshot "alice" = 0%nat ->
       (0 < unreadCount both_ways_snapshot "alice")%nat ->
       tex_fill t = info_fill /\ tex_stroke t = info_stroke /\
       tex_count t = Some (unreadCount both_ways_snapshot "alice")) /\
    (unreadFromAgent both_ways_snapshot "alice" = 0%nat ->
       unreadCount both_ways_snapshot "alice" = 0%nat ->
       tex_fill t = neutral_fill /\ tex_stroke t = neutral_stroke /\ tex_count t = None).
Proof.
  split; [repeat constructor; simpl; tauto|].
  split; [left; reflexivity|].
  split; [reflexivity|]. split; [vm_compute; reflexivity|]. split; [vm_compute; reflexivity|].
  apply (updateDeskLabels_badge both_ways_snapshot alice_world "alice" (label_only_desk "alice")).
  - repeat constructor. simpl. tauto.
  - left. reflexivity.
  - reflexivity.
Defined.

(** ** A second pass over the same snapshot *)

Lemma place_loop_keys g n r (l : list string) :
  forall i w, (forall a, In a l -> In a (map fst (w_agentMeshes w))) ->
  map fst (w_agentMeshes (snd (forEachi (place g n r) l i w))) = map fst (w_agentMeshes w).
Proof.
  induction l as [|a l IH]; intros i w Hl; simpl; [reflexivity|].
  rewrite run_seq.
  destruct (place_spec g n r a i w) as [d [Hm _]].
  assert (Hk : map fst (w_agentMeshes (snd (place g n r a i w))) = map fst (w_agentMeshes w)).
  { rewrite Hm. apply map_keys_set_in, Hl. left. reflexivity. }
  rewrite IH; [exact Hk|].
  intros a' Ha'. rewrite Hk. apply Hl. right. exact Ha'.
Qed.

Lemma remove_loop_none A (l : list (string * Desk)) :
  forall w, (forall k, In k (map fst l) -> set_has k A = true) ->
  w_agentMeshes (snd (forEach (remove_stale A) l w)) = w_agentMeshes w.
Proof.
  induction l as [|[k0 d0] l IH]; intros w Hk; cbn [forEach]; [reflexivity|].
  rewrite run_seq, IH by (intros k Hin; apply Hk; right; exact Hin).
  destruct (remove_stale_spec A k0 d0 w) as [Hm _]. rewrite Hm.
  rewrite (Hk k0 (or_introl eq_refl)). reflexivity.
Qed.

Lemma filter_all_true {X} (f : X -> bool) (l : list X) :
  (forall x, In x l -> f x = true) -> filter f l = l.
Proof.
  induction l as [|x l IH]; intros H; simpl; [reflexivity|].
  rewrite (H x (or_introl eq_refl)), IH; [reflexivity|].
  intros y Hy. apply H. right. exact Hy.
Qed.

Lemma updateVillage_steady g w :
  NoDup (map fst (w_agentMeshes w)) ->
  all_sprites w ->
  (forall k, In k (map fst (w_agentMeshes w)) <-> In k (agent_set g)) ->
  map fst (w_agentMeshes (snd (updateVillage g w))) = map fst (w_agentMeshes w) /\
  w_log (snd (updateVillage g w)) =
    w_log w ++ map EvLabel (agent_set g) ++ map EvLabel (map fst (w_agentMeshes w)).
Proof.
  intros Hnd Hsp Hkeys. rewrite updateVillage_run. cbv zeta.
  set (A := agent_set g). set (n := List.length A). fold A in Hkeys.
  destruct (agent_set_spec g) as [HA _]. fold A in HA.
  set (w1 := snd (clearConnections w)).
  assert (Hm1 : w_agentMeshes w1 = w_agentMeshes w) by apply clearConnections_meshes.
  assert (Hl1 : w_log w1 = w_log w) by apply clearConnections_log.
  set (w2 := snd (forEachi (place g n (layout_radius n)) A 0 w1)).
  destruct (place_loop g n (layout_radius n) A 0 w1 HA) as [P1 [P2 P3]].
  fold w2 in P1, P2, P3. rewrite Hm1 in P1, P2, P3. specialize (P3 Hnd).
  assert (K2 : map fst (w_agentMeshes w2) = map fst (w_agentMeshes w)).
  { unfold w2. rewrite place_loop_keys, Hm1; [reflexivity|].
    intros a Ha. rewrite Hm1. apply Hkeys, Ha. }
  assert (L2 : w_log w2 = w_log w ++ map EvLabel A).
  { unfold w2. rewrite place_loop_log, Hl1; [reflexivity|exact HA|].
    intros a Ha. rewrite Hm1.
    apply Hkeys, map_get_In_keys in Ha.
    destruct (map_get a (w_agentMeshes w)) as [d|] eqn:E; [|congruence].
    exists d. split; [reflexivity|]. eapply Hsp, map_get_Some_In, E. }
  assert (S2 : forall k d, In (k, d) (w_agentMeshes w2) -> sprite_b d = true).
  { intros k d Hin. apply (map_get_NoDup_In _ _ _ P3) in Hin.
    destruct (In_dec String.string_dec k A) as [HkA|HkA].
    - destruct (In_nth_error _ _ HkA) as [i Hi].
      destruct (P2 i k Hi) as [d' [Hd' [_ Hs]]].
      rewrite Hin in Hd'. injection Hd' as <-. apply Hs.
      apply Hkeys, map_get_In_keys in HkA.
      destruct (map_get k (w_agentMeshes w)) as [d0|] eqn:E; [|reflexivity].
      simpl. eapply Hsp, map_get_Some_In, E.
    - rewrite P1 in Hin by exact HkA. eapply Hsp, map_get_Some_In, Hin. }
  set (w3 := snd (forEach (remove_stale A) (w_agentMeshes w2) w2)).
  assert (Hall : forall k, In k (map fst (w_agentMeshes w2)) -> set_has k A = true).
  { intros k Hk. apply set_has_In, Hkeys. rewrite <- K2. exact Hk. }
  assert (Hm3 : w_agentMeshes w3 = w_agentMeshes w2) by (apply remove_loop_none, Hall).
  assert (L3 : w_log w3 = w_log w2) by (apply remove_loop_log, Hall).
  set (w4 := snd (forEach connect_message (allMessages g) w3)).
  assert (Hm4 : w_agentMeshes w4 = w_agentMeshes w3).
  { apply preserves_forEach. intros m _. apply connect_message_meshes. }
  assert (L4 : w_log w4 = w_log w3).
  { apply preserves_forEach. intros m _. apply connect_message_log. }
  assert (Hnd4 : NoDup (map fst (w_agentMeshes w4))) by (rewrite Hm4, Hm3; exact P3).
  destruct (relabel_loop g (w_agentMeshes w4) w4 Hnd4) as [_ [_ R3]].
  split.
  - rewrite R3 by (intros k H; exact H). rewrite Hm4, Hm3. exact K2.
  - rewrite relabel_loop_log, L4, L3, L2, Hm4, Hm3, <- app_assoc.
    rewrite filter_all_true.
    + rewrite <- K2, map_map. reflexivity.
    + intros [k d] Hin. apply (S2 k d Hin).
Qed.

Lemma updateVillage_all_sprites g w :
  NoDup (map fst (w_agentMeshes w)) -> all_sprites w ->
  all_sprites (snd (updateVillage g w)).
Proof.
  intros Hnd Hsp k d Hin.
  destruct (updateVillage_meshes g w Hnd) as [H1 [H2 H3]].
  assert (HkA : In k (agent_set g)).
  { apply H2. apply (in_map fst) in Hin. exact Hin. }
  destruct (In_nth_error _ _ HkA) as [i Hi].
  destruct (H3 i k Hi) as [d' [Hd' [_ Hs]]].
  rewrite (map_get_NoDup_In _ _ _ H1 Hin) in Hd'. injection Hd' as <-.
  apply Hs. destruct (map_get k (w_agentMeshes w)) as [d0|] eqn:E; [|reflexivity].
  simpl. eapply Hsp, map_get_Some_In, E.
Qed.

(** C5 (as the code does it): a second pass with the same snapshot creates
    and removes no desk (the keys of [agentMeshes] are unchanged and no
    create or remove event is logged), but every label is drawn again,
    twice: once by [updateDeskLabel] in the placement loop, for each
    identity, and once by [updateDeskLabels], for each desk. *)
Theorem updateVillage_second_pass (g : Globals) (w0 : World) :
  NoDup (map fst (w_agentMeshes w0)) ->
  all_sprites w0 ->
  let w1 := snd (updateVillage g w0) in
  let w2 := snd (updateVillage g w1) in
  map fst (w_agentMeshes w2) = map fst (w_agentMeshes w1) /\
  w_log w2 = w_log w1 ++ map EvLabel (agent_set g) ++ map EvLabel (map fst (w_agentMeshes w1)).
Proof.
  intros Hnd Hsp w1 w2.
  destruct (updateVillage_meshes g w0 Hnd) as [H1 [H2 _]]. fold w1 in H1, H2.
  apply updateVillage_steady; [exact H1| |exact H2].
  apply updateVillage_all_sprites; assumption.
Qed.

Lemma updateVillage_second_pass_witness :
  NoDup (map fst (w_agentMeshes init_world)) /\ all_sprites init_world /\
  (let w1 := snd (updateVillage carol_snapshot init_world) in
   let w2 := snd (updateVillage carol_snapshot w1) in
   map fst (w_agentMeshes w2) = map fst (w_agentMeshes w1) /\
   w_log w2 = w_log w1 ++ map EvLabel (agent_set carol_snapshot) ++
                map EvLabel (map fst (w_agentMeshes w1))).
Proof.
  split; [constructor|]. split; [intros k d []|].
  apply (updateVillage_second_pass carol_snapshot init_world).
  - constructor.
  - intros k d [].
Defined.

(** C5 counterexample: reconciling the sample office twice, the second
    pass keeps the three desks but logs six label redraws, and alice's
    sprite shows a new texture. *)
Lemma second_pass_redraws_labels :
  let w1 := snd (updateVillage carol_snapshot init_world) in
  let w2 := snd (updateVillage carol_snapshot w1) in
  map fst (w_agentMeshes w1) = ["carol"; "alice"; "bob"]%string /\
  map fst (w_agentMeshes w2) = map fst (w_agentMeshes w1) /\
  w_log w2 = w_log w1 ++
    [EvLabel "carol"; EvLabel "alice"; EvLabel "bob";
     EvLabel "carol"; EvLabel "alice"; EvLabel "bob"]%string /\
  label_handle "alice" w2 <> label_handle "alice" w1.
Proof.
  vm_compute. split; [reflexivity|]. split; [reflexivity|]. split; [reflexivity|].
  discriminate.
Qed.

(** ** Removing a desk *)

(** C6: when alice leaves the roster, the pass takes her desk out of the
    scene and out of [agentMeshes] and frees every geometry and material of
    its meshes, but the material and the texture of its label sprite stay
    allocated: the traversal only disposes children with [isMesh]. *)
Lemma stale_desk_keeps_label_resources :
  let w1 := snd (updateVillage carol_snapshot init_world) in
  let w2 := snd (updateVillage carol_snapshot_no_alice w1) in
  match map_get "alice" (w_agentMeshes w1) with
  | Some d =>
      map_get "alice" (w_agentMeshes w2) = None /\
      existsb (Nat.eqb (desk_id d)) (w_scene w2) = false /\
      forallb (fun h => negb (live h w2)) (mesh_handles d) = true /\
      sprite_handles d <> [] /\
      forallb (fun h => live h w2) (sprite_handles d) = true
  | None => False
  end.
Proof.
  vm_compute. repeat split; try reflexivity. discriminate.
Qed.

(** ** Clearing the connectors *)



(** C7 (code bug): [clearConnections] takes the connectors out of the scene
    but never disposes them.  Over two passes on the sample office, the
    first pass's curve and its four markers are out of the scene and out of
    [connectionLines] after the second pass, yet all their geometries and
    materials are still allocated; the second pass has allocated a fresh
    geometry and material for each of its own five connectors, so every
    cycle leaves ten more resources allocated. *)
Lemma previous_connector_not_disposed :
  let w1 := snd (updateVillage carol_snapshot init_world) in
  let w2 := snd (updateVillage carol_snapshot w1) in
  map t_kind (w_connectionLines w1) = [TLine; TMarker; TMarker; TMarker; TMarker] /\
  forallb (fun t => negb (existsb (Nat.eqb (t_id t)) (w_scene w2)) &&
                    negb (existsb (Nat.eqb (t_id t)) (map t_id (w_connectionLines w2))) &&
                    live (t_geo t) w2 && live (t_mat t) w2)
    (w_connectionLines w1) = true /\
  map t_kind (w_connectionLines w2) = [TLine; TMarker; TMarker; TMarker; TMarker] /\
  forallb (fun t => live (t_geo t) w2 && live (t_mat t) w2 &&
                    negb (existsb (fun u => Nat.eqb (t_geo t) (t_geo u) || Nat.eqb (t_geo t) (t_mat u)
                                            || Nat.eqb (t_mat t) (t_geo u) || Nat.eqb (t_mat t) (t_mat u))
                            (w_connectionLines w1)))
    (w_connectionLines w2) = true.
Proof.
  vm_compute. repeat split; reflexivity.
Qed.

(* ================================================================== *)
(** * Properties of the server and of the rest of the client *)

(** ** The code-unit order of strings *)

Lemma ascii_compare_N a b : Ascii.compare a b = N.compare (N_of_ascii a) (N_of_ascii b).
Proof. reflexivity. Qed.

Lemma string_compare_lt_trans a b c :
  String.compare a b = Lt -> String.compare b c = Lt -> String.compare a c = Lt.
Proof.
  revert b c. induction a as [|x a IH]; intros [|y b] [|z c]; simpl; intros H1 H2;
    try discriminate; try reflexivity.
  rewrite ascii_compare_N in *.
  destruct (N.compare (N_of_ascii x) (N_of_ascii y)) eqn:E1; try discriminate;
  destruct (N.compare (N_of_ascii y) (N_of_ascii z)) eqn:E2; try discriminate.
  - apply N.compare_eq_iff in E1, E2. rewrite E1, E2, N.compare_refl. eauto.
  - apply N.compare_eq_iff in E1. rewrite E1, E2. reflexivity.
  - apply N.compare_eq_iff in E2. rewrite <- E2, E1. reflexivity.
  - assert (E3 : N.compare (N_of_ascii x) (N_of_ascii z) = Lt)
      by exact (N.lt_trans _ _ _ E1 E2).
    rewrite E3. reflexivity.
Qed.

Lemma string_compare_refl a : String.compare a a = Eq.
Proof.
  induction a as [|x a IH]; simpl; [reflexivity|].
  rewrite ascii_compare_N, N.compare_refl. exact IH.
Qed.

Lemma string_leb_trans a b c :
  String.leb a b = true -> String.leb b c = true -> String.leb a c = true.
Proof.
  unfold String.leb.
  case_eq (String.compare a b); intros E1; try discriminate;
  case_eq (String.compare b c); intros E2; try discriminate; intros _ _;
  try apply String.compare_eq_iff in E1; try apply String.compare_eq_iff in E2;
  subst; try rewrite E1; try rewrite E2; try rewrite string_compare_refl; try reflexivity.
  rewrite (string_compare_lt_trans a b c E1 E2). reflexivity.
Qed.

Lemma string_leb_flip a b : String.leb a b = false -> String.leb b a = true.
Proof.
  destruct (String.leb_total a b) as [H|H]; [congruence|auto].
Qed.

Definition str_le (a b : string) : Prop := String.leb a b = true.
Definition str_lt (a b : string) : Prop := String.compare a b = Lt.

(** ** Sorting *)

Lemma insert_sorted_perm x l : Permutation (insert_sorted x l) (x :: l).
Proof.
  induction l as [|y l IH]; simpl; [reflexivity|].
  destruct (String.leb x y); [reflexivity|].
  rewrite IH. apply perm_swap.
Qed.

Lemma sort_strings_perm l : Permutation (sort_strings l) l.
Proof.
  induction l as [|x l IH]; simpl; [reflexivity|].
  rewrite insert_sorted_perm, IH. reflexivity.
Qed.

Lemma insert_sorted_sorted x l :
  StronglySorted str_le l -> StronglySorted str_le (insert_sorted x l).
Proof.
  induction l as [|y l IH]; simpl; intros H.
  - repeat constructor.
  - apply StronglySorted_inv in H as [Hl Hy].
    case_eq (String.leb x y); intros E.
    + constructor; [constructor; assumption|].
      constructor; [exact E|].
      rewrite Forall_forall in Hy |- *. intros z Hz.
      apply (string_leb_trans x y z E (Hy z Hz)).
    + constructor; [apply IH, Hl|].
      rewrite Forall_forall in Hy |- *. intros z Hz.
      apply (Permutation_in _ (insert_sorted_perm x l)) in Hz as [<-|Hz].
      * apply string_leb_flip, E.
      * apply Hy, Hz.
Qed.

Lemma sort_strings_sorted l : StronglySorted str_le (sort_strings l).
Proof.
  induction l as [|x l IH]; simpl; [constructor|].
  apply insert_sorted_sorted, IH.
Qed.

Lemma sort_strings_sorted_id l : StronglySorted str_le l -> sort_strings l = l.
Proof.
  induction l as [|x l IH]; simpl; intros H; [reflexivity|].
  apply StronglySorted_inv in H as [Hl Hx].
  rewrite (IH Hl). destruct l as [|y l]; simpl; [reflexivity|].
  inversion Hx as [|? ? Hxy _]; subst. unfold str_le in Hxy. rewrite Hxy. reflexivity.
Qed.

Lemma sorted_le_nodup_lt l :
  StronglySorted str_le l -> NoDup l -> StronglySorted str_lt l.
Proof.
  induction 1 as [|x l Hl IH Hx]; intros Hn; [constructor|].
  apply NoDup_cons_iff in Hn as [Hxl Hn].
  constructor; [apply IH, Hn|].
  rewrite Forall_forall in Hx |- *. intros y Hy. specialize (Hx y Hy).
  unfold str_le, String.leb in Hx. unfold str_lt.
  destruct (String.compare x y) eqn:E; try discriminate; [|reflexivity].
  apply String.compare_eq_iff in E. subst. contradiction.
Qed.

(** ** Lower-casing *)

Lemma lower_ascii_idem c : lower_ascii (lower_ascii c) = lower_ascii c.
Proof. destruct c as [[] [] [] [] [] [] [] []]; reflexivity. Qed.

Lemma toLowerCase_idem s : toLowerCase (toLowerCase s) = toLowerCase s.
Proof.
  induction s as [|c s IH]; simpl; [reflexivity|].
  rewrite lower_ascii_idem, IH. reflexivity.
Qed.

(** ** [/api/coworkers] *)

Lemma fold_set_add_map (f : string -> string) l s :
  fold_left (fun s n => set_add (f n) s) l s = fold_left (fun s x => set_add x s) (map f l) s.
Proof. revert s. induction l as [|x l IH]; intros s; simpl; [reflexivity|]. apply IH. Qed.

Lemma coworkers_set_spec (user : string) (cdb : option (option (list string))) :
  let s := match cdb with
           | Some (Some names) => fold_left (fun s n => set_add (toLowerCase n) s) names []
           | _ => []
           end in
  NoDup s /\
  forall x, In x s <-> exists names, cdb = Some (Some names) /\ In x (map toLowerCase names).
Proof.
  destruct cdb as [[names|]|]; simpl.
  2,3: split; [constructor|]; intros x; split; [intros []|intros [? [[=] _]]].
  rewrite fold_set_add_map.
  destruct (set_of_list_fold (map toLowerCase names) [] (NoDup_nil _)) as [H1 H2].
  split; [exact H1|]. intros x. rewrite H2. simpl.
  split; [intros [[]|H]; eauto|intros [n [[= <-] H]]; auto].
Qed.

Lemma api_coworkers_sorted_lt user cdb :
  NoDup (api_coworkers user cdb) /\ StronglySorted str_lt (api_coworkers user cdb).
Proof.
  destruct (coworkers_set_spec user cdb) as [Hn _]. unfold api_coworkers.
  set (s := match cdb with
            | Some (Some names) => fold_left (fun s n => set_add (toLowerCase n) s) names []
            | _ => []
            end) in *.
  assert (Hd : NoDup (sort_strings (set_delete (toLowerCase user) s))).
  { eapply Permutation_NoDup; [symmetry; apply sort_strings_perm|].
    apply NoDup_filter, Hn. }
  split; [exact Hd|]. apply sorted_le_nodup_lt; [apply sort_strings_sorted|exact Hd].
Qed.

Lemma api_coworkers_In user cdb x :
  In x (api_coworkers user cdb) <->
  exists names, cdb = Some (Some names) /\ x <> toLowerCase user /\
    exists n, In n names /\ toLowerCase n = x.
Proof.
  destruct (coworkers_set_spec user cdb) as [_ Hs]. unfold api_coworkers.
  assert (Hp : forall l, In x (sort_strings l) <-> In x l).
  { intros l. split; apply Permutation_in;
      [apply sort_strings_perm|symmetry; apply sort_strings_perm]. }
  rewrite Hp. unfold set_delete. rewrite filter_In, Hs.
  split.
  - intros [[names [E Hx]] Hne]. apply negb_true_iff, String.eqb_neq in Hne.
    apply in_map_iff in Hx as [n [Hn Hin]]. exists names. eauto 6.
  - intros [names [E [Hne [n [Hin Hn]]]]]. split.
    + exists names. split; [exact E|]. apply in_map_iff. eauto.
    + apply negb_true_iff, String.eqb_neq, Hne.
Qed.

(** ** [/api/avatars] *)

Lemma map_get_app_single {V} (n k : string) (v : V) st :
  map_get n (st ++ [(k, v)]) =
  match map_get n st with Some v' => Some v' | None => if String.eqb n k then Some v else None end.
Proof.
  induction st as [|[k' v'] st IH]; simpl; [destruct (String.eqb n k); reflexivity|].
  destruct (String.eqb n k'); [reflexivity|exact IH].
Qed.

Lemma avatar_fold_get rows st n :
  map_get n (fold_left (fun st r =>
    if map_has (av_name r) st || existsb (String.eqb (av_name r)) object_prototype_keys
    then st
    else st ++ [(av_name r, (av_tool r, av_ts r))]) rows st) =
  match map_get n st with
  | Some v => Some v
  | None =>
      if existsb (String.eqb n) object_prototype_keys then None
      else option_map (fun r => (av_tool r, av_ts r))
             (find (fun r => String.eqb (av_name r) n) rows)
  end.
Proof.
  revert st. induction rows as [|r rows IH]; intros st; cbn [fold_left find].
  - destruct (map_get n st); [reflexivity|].
    destruct (existsb (String.eqb n) object_prototype_keys); reflexivity.
  - rewrite IH.
    destruct (String.eqb_spec (av_name r) n) as [En|En].
    + rewrite En. unfold map_has. destruct (map_get n st) as [v|] eqn:G; cbn [orb].
      * rewrite G. reflexivity.
      * destruct (existsb (String.eqb n) object_prototype_keys); [rewrite G; reflexivity|].
        rewrite map_get_app_single, G, String.eqb_refl. reflexivity.
    + destruct (map_has (av_name r) st || existsb (String.eqb (av_name r)) object_prototype_keys);
        [reflexivity|].
      rewrite map_get_app_single.
      destruct (String.eqb_spec n (av_name r)); [congruence|].
      destruct (map_get n st); reflexivity.
Qed.

Lemma api_avatars_get adb n :
  map_get n (api_avatars adb) =
  match adb with
  | Some (Some rows) =>
      if existsb (String.eqb n) object_prototype_keys then None
      else option_map (fun r => (av_tool r, av_ts r))
             (find (fun r => String.eqb (av_name r) n) rows)
  | _ => None
  end.
Proof.
  destruct adb as [[rows|]|]; [|reflexivity|reflexivity].
  unfold api_avatars, avatar_states_of. rewrite avatar_fold_get. reflexivity.
Qed.

Definition av_desc (a b : AvatarRow) : Prop := (av_ts b <= av_ts a)%Z.

Lemma find_first_max n rows r0 :
  StronglySorted av_desc rows ->
  find (fun r => String.eqb (av_name r) n) rows = Some r0 ->
  In r0 rows /\ av_name r0 = n /\
  forall r, In r rows -> av_name r = n -> (av_ts r <= av_ts r0)%Z.
Proof.
  induction 1 as [|r rows Hs IH Hr]; simpl; [discriminate|].
  destruct (String.eqb_spec (av_name r) n) as [En|En].
  - intros [= <-]. split; [left; reflexivity|]. split; [exact En|].
    intros r' [<-|Hin] _; [lia|].
    rewrite Forall_forall in Hr. apply Hr, Hin.
  - intros Hf. destruct (IH Hf) as [H1 [H2 H3]].
    split; [right; exact H1|]. split; [exact H2|].
    intros r' [<-|Hin] Hn; [congruence|]. apply H3; assumption.
Qed.

(** ** [/api/send] *)

Lemma max_id_fold rows acc :
  (acc <= fold_left (fun m x => Z.max m (row_id x)) rows acc)%Z /\
  forall x, In x rows -> (row_id x <= fold_left (fun m x => Z.max m (row_id x)) rows acc)%Z.
Proof.
  revert acc. induction rows as [|y rows IH]; intros acc; simpl.
  - split; [lia|intros _ []].
  - destruct (IH (Z.max acc (row_id y))) as [H1 H2]. split; [lia|].
    intros x [<-|Hx]; [lia|apply H2, Hx].
Qed.

Lemma max_id_ge rows x : In x rows -> (row_id x <= max_id rows)%Z.
Proof. apply max_id_fold. Qed.

Lemma api_send_some user now b db t :
  body_to b = Some t ->
  exists row,
    api_send user now b db =
      (R200 tt, {| db_messages := Some (table_rows db ++ [row]); db_seq := row_id row |}) /\
    row_recipient row = toLowerCase t /\ row_sender row = toLowerCase user /\
    row_message row = body_message b /\ row_timestamp row = now /\ row_read row = 0%Z /\
    (forall x, In x (table_rows db) -> (row_id x < row_id row)%Z) /\
    (tableExists db = true -> (db_seq db < row_id row)%Z).
Proof.
  intros Ht. unfold api_send, create_messages_table, table_rows, tableExists.
  rewrite Ht.
  destruct db as [[rows|] seq]; cbn [db_messages db_seq].
  - exists {| row_id := Z.max seq (max_id rows) + 1; row_recipient := toLowerCase t;
              row_sender := toLowerCase user; row_message := body_message b;
              row_timestamp := now; row_read := 0 |}.
    split; [reflexivity|]. cbn.
    repeat split; try reflexivity.
    + intros x Hx. pose proof (max_id_ge rows x Hx). lia.
    + intros _. lia.
  - exists {| row_id := Z.max 0 (max_id []) + 1; row_recipient := toLowerCase t;
              row_sender := toLowerCase user; row_message := body_message b;
              row_timestamp := now; row_read := 0 |}.
    split; [reflexivity|]. cbn.
    repeat split; try reflexivity.
    + intros x [].
    + discriminate.
Qed.

Lemma serve_sends_spec user clock bs :
  forall i db, Forall (fun b => body_to b <> None) bs ->
  let res := serve_sends user clock i bs db in
  allSuccessful (fst res) = true /\
  exists new, table_rows (snd res) = table_rows db ++ new /\
    map row_recipient new =
      map (fun b => toLowerCase (match body_to b with Some t => t | None => EmptyString end)) bs /\
    map row_message new = map body_message bs /\
    Forall (fun x => row_sender x = toLowerCase user /\ row_read x = 0%Z) new.
Proof.
  induction bs as [|b bs IH]; intros i db Hb; cbn zeta.
  - split; [reflexivity|]. exists []. rewrite app_nil_r. repeat split; constructor.
  - apply Forall_cons_iff in Hb as [Hb Hbs].
    destruct (body_to b) as [t|] eqn:Ht; [|contradiction].
    destruct (api_send_some user (clock i) b db t Ht)
      as [row [E [R1 [R2 [R3 [_ [R5 _]]]]]]].
    cbn [serve_sends]. rewrite E.
    set (db1 := {| db_messages := Some (table_rows db ++ [row]); db_seq := row_id row |}).
    specialize (IH (S i) db1 Hbs). cbn zeta in IH.
    destruct (serve_sends user clock (S i) bs db1) as [rs db2].
    cbn [fst snd] in IH |- *. destruct IH as [A [new [N1 [N2 [N3 N4]]]]].
    split; [exact A|]. exists (row :: new).
    rewrite N1. unfold db1, table_rows at 1. cbn [db_messages]. rewrite <- app_assoc.
    split; [reflexivity|]. cbn [map]. rewrite Ht, N2, N3, R1, R3.
    split; [reflexivity|]. split; [reflexivity|]. constructor; [split; assumption|exact N4].
Qed.

(** ** [/api/messages/:id/read] *)

Lemma set_read_id x : row_id (set_read x) = row_id x.
Proof. reflexivity. Qed.

Lemma set_read_idem x : set_read (set_read x) = set_read x.
Proof. reflexivity. Qed.

Lemma serve_marks_rows ids db :
  db_messages (serve_marks ids db) =
    option_map (map (fun x => if existsb (Z.eqb (row_id x)) ids then set_read x else x))
      (db_messages db) /\
  db_seq (serve_marks ids db) = db_seq db.
Proof.
  unfold serve_marks. revert db. induction ids as [|i ids IH]; intros db; cbn [fold_left].
  - split; [|reflexivity]. destruct (db_messages db) as [rows|]; [|reflexivity].
    cbn. f_equal. induction rows as [|x rows IHr]; [reflexivity|]. cbn. f_equal. exact IHr.
  - destruct (IH (snd (api_mark_read i db))) as [H1 H2]. rewrite H1, H2.
    unfold api_mark_read. destruct db as [[rows|] seq]; cbn; [|split; reflexivity].
    split; [|reflexivity]. f_equal. rewrite map_map. apply map_ext. intros x.
    destruct (Z.eqb_spec (row_id x) i) as [->|Hne]; cbn.
    + match goal with |- (if ?c then _ else _) = _ => destruct c end; reflexivity.
    + replace (Z.eqb (row_id x) i) with false by (symmetry; apply Z.eqb_neq; exact Hne).
      reflexivity.
Qed.

(** ** [trim] *)

Lemma drop_spaces_split l :
  exists pre, l = pre ++ drop_spaces l /\ Forall (fun c => is_js_space c = true) pre /\
    match drop_spaces l with c :: _ => is_js_space c = false | [] => True end.
Proof.
  induction l as [|c l IH]; simpl.
  - exists []. repeat constructor.
  - destruct (is_js_space c) eqn:E.
    + destruct IH as [pre [H1 [H2 H3]]]. exists (c :: pre).
      split; [simpl; rewrite <- H1; reflexivity|]. split; [constructor; assumption|exact H3].
    + exists []. split; [reflexivity|]. split; [constructor|exact E].
Qed.

Lemma drop_spaces_all l :
  Forall (fun c => is_js_space c = true) l -> drop_spaces l = [].
Proof. induction 1 as [|c l Hc _ IH]; simpl; [reflexivity|]. rewrite Hc. exact IH. Qed.

Lemma trim_spec s :
  let m := list_ascii_of_string (trim s) in
  exists pre post, list_ascii_of_string s = pre ++ m ++ post /\
    Forall (fun c => is_js_space c = true) pre /\
    Forall (fun c => is_js_space c = true) post /\
    match m with c :: _ => is_js_space c = false | [] => True end /\
    match rev m with c :: _ => is_js_space c = false | [] => True end.
Proof.
  cbn zeta. unfold trim. rewrite list_ascii_of_string_of_list_ascii.
  set (l := list_ascii_of_string s).
  destruct (drop_spaces_split l) as [pre1 [E1 [F1 H1]]].
  set (l1 := drop_spaces l) in *.
  destruct (drop_spaces_split (rev l1)) as [pre2 [E2 [F2 H2]]].
  set (l2 := drop_spaces (rev l1)) in *.
  assert (El1 : l1 = rev l2 ++ rev pre2).
  { rewrite <- rev_app_distr, <- E2, rev_involutive. reflexivity. }
  exists pre1, (rev pre2). split; [|split; [exact F1|split]].
  - rewrite E1 at 1. rewrite El1. reflexivity.
  - apply Forall_rev, F2.
  - split.
    + destruct (rev l2) as [|c r] eqn:R; [exact I|].
      rewrite El1 in H1. exact H1.
    + rewrite rev_involutive. exact H2.
Qed.

(* ------------------------------------------------------------------ *)
(** ** Server and client properties *)

(** The roster served by [GET /api/coworkers] is strictly increasing in the
    order of code units, hence free of duplicates, and sorting it again, as
    [recipients.sort()] in [updateUI] does in place, leaves it and the
    globals holding it unchanged. *)
Theorem api_coworkers_sorted (user : string) (cdb : option (option (list string))) :
  let r := api_coworkers user cdb in
  NoDup r /\ StronglySorted str_lt r /\ sort_strings r = r /\
  forall ms alls g, updateUI_sort (with_data ms r alls g) = with_data ms r alls g.
Proof.
  cbn zeta. destruct (api_coworkers_sorted_lt user cdb) as [Hn Hs].
  assert (Hid : sort_strings (api_coworkers user cdb) = api_coworkers user cdb).
  { apply sort_strings_sorted_id. unfold api_coworkers. apply sort_strings_sorted. }
  split; [exact Hn|]. split; [exact Hs|]. split; [exact Hid|].
  intros ms alls g. unfold updateUI_sort. cbn [recipients messages allMessages with_data].
  rewrite Hid. destruct g; reflexivity.
Qed.

(** [GET /api/coworkers] lists a name exactly when it is the lowercase form
    of a name of the [coworkers] table other than the lowercased server
    user; without a coworker database, or when its query throws, the list
    is empty. *)
Theorem api_coworkers_members (user : string) (cdb : option (option (list string))) (x : string) :
  In x (api_coworkers user cdb) <->
  exists names, cdb = Some (Some names) /\ x <> toLowerCase user /\
    exists n, In n names /\ toLowerCase n = x.
Proof. apply api_coworkers_In. Qed.

(** [GET /api/avatars] gives a name the tool and timestamp of the first row
    of that name in query order, and nothing when no row has the name; a
    name that is a property of [Object.prototype] (such as [constructor] or
    [toString]) never gets a state; without an avatar database or a
    [latest_tool_usage] table the object is empty. *)
Theorem api_avatars_lookup (adb : option (option (list AvatarRow))) (n : string) :
  map_get n (api_avatars adb) =
  match adb with
  | Some (Some rows) =>
      if existsb (String.eqb n) object_prototype_keys then None
      else option_map (fun r => (av_tool r, av_ts r))
             (find (fun r => String.eqb (av_name r) n) rows)
  | _ => None
  end.
Proof. apply api_avatars_get. Qed.

(** With the rows in [ORDER BY timestamp DESC] order, a name that has a
    row and is not an [Object.prototype] property gets the state of one of
    its rows with the latest timestamp. *)
Theorem api_avatars_latest (rows : list AvatarRow) (n : string) (r : AvatarRow) :
  Sorted av_desc rows -> In r rows -> av_name r = n ->
  existsb (String.eqb n) object_prototype_keys = false ->
  exists tool ts,
    map_get n (api_avatars (Some (Some rows))) = Some (tool, ts) /\
    (exists r0, In r0 rows /\ av_name r0 = n /\ av_tool r0 = tool /\ av_ts r0 = ts) /\
    (forall r', In r' rows -> av_name r' = n -> (av_ts r' <= ts)%Z).
Proof.
  intros Hs Hr Hn Hp. rewrite api_avatars_get, Hp.
  apply Sorted_StronglySorted in Hs; [|intros a b c; unfold av_desc; lia].
  destruct (find (fun r => String.eqb (av_name r) n) rows) as [r0|] eqn:F.
  - destruct (find_first_max n rows r0 Hs F) as [H1 [H2 H3]].
    exists (av_tool r0), (av_ts r0). split; [reflexivity|].
    split; [exists r0; auto|exact H3].
  - apply (find_none _ _ F) in Hr. rewrite Hn, String.eqb_refl in Hr. discriminate.
Qed.

Lemma api_avatars_latest_witness :
  Sorted av_desc sample_avatar_rows /\
  exists tool ts,
    map_get "bob"%string (api_avatars (Some (Some sample_avatar_rows))) = Some (tool, ts) /\
    (exists r0, In r0 sample_avatar_rows /\ av_name r0 = "bob"%string /\ av_tool r0 = tool /\
                av_ts r0 = ts) /\
    (forall r', In r' sample_avatar_rows -> av_name r' = "bob"%string -> (av_ts r' <= ts)%Z).
Proof.
  assert (Hs : Sorted av_desc sample_avatar_rows).
  { unfold sample_avatar_rows, av_desc.
    repeat constructor; cbn; lia. }
  split; [exact Hs|].
  apply (api_avatars_latest sample_avatar_rows "bob"%string
           {| av_name := "bob"%string; av_tool := "Read"%string; av_ts := 100 |}).
  - exact Hs.
  - right. right. right. left. reflexivity.
  - reflexivity.
  - reflexivity.
Defined.

(** A successful [POST /api/send] with a recipient [to] appends one row
    to the [messages] table, creating the table first when it is missing:
    recipient [to.toLowerCase()], sender the lowercased user the server
    runs as (the body's [from] is not read), read flag 0, the request time
    as timestamp, and an id larger than every id in the table and than the
    [AUTOINCREMENT] counter. *)
Theorem api_send_stores (user : string) (now : Z) (b : SendBody) (db : Db) (t : string) :
  body_to b = Some t ->
  exists row,
    api_send user now b db =
      (R200 tt, {| db_messages := Some (table_rows db ++ [row]); db_seq := row_id row |}) /\
    row_recipient row = toLowerCase t /\ row_sender row = toLowerCase user /\
    row_message row = body_message b /\ row_timestamp row = now /\ row_read row = 0%Z /\
    (forall x, In x (table_rows db) -> (row_id x < row_id row)%Z) /\
    (tableExists db = true -> (db_seq db < row_id row)%Z).
Proof. apply api_send_some. Qed.

Lemma api_send_stores_witness :
  body_to {| body_to := Some "Alice"%string; body_from := "mallory"%string; body_message := "hi"%string |}
    = Some "Alice"%string /\
  exists row,
    api_send "Carol"%string 400
      {| body_to := Some "Alice"%string; body_from := "mallory"%string; body_message := "hi"%string |} sample_db =
      (R200 tt, {| db_messages := Some (table_rows sample_db ++ [row]); db_seq := row_id row |}) /\
    row_recipient row = toLowerCase "Alice"%string /\ row_sender row = toLowerCase "Carol"%string /\
    row_message row = "hi"%string /\ row_timestamp row = 400%Z /\ row_read row = 0%Z /\
    (forall x, In x (table_rows sample_db) -> (row_id x < row_id row)%Z) /\
    (tableExists sample_db = true -> (db_seq sample_db < row_id row)%Z).
Proof.
  split; [reflexivity|].
  exact (api_send_stores "Carol"%string 400
           {| body_to := Some "Alice"%string; body_from := "mallory"%string; body_message := "hi"%string |}
           sample_db "Alice"%string eq_refl).
Defined.

(** [POST /api/send] without a [to] field answers 500, yet the
    [messages] table exists afterwards: it is created before [to] is read,
    and an existing table keeps its rows. *)
Theorem api_send_missing_to (user : string) (now : Z) (b : SendBody) (db : Db) :
  body_to b = None ->
  fst (api_send user now b db) = RError 500 /\
  tableExists (snd (api_send user now b db)) = true /\
  table_rows (snd (api_send user now b db)) = table_rows db.
Proof.
  intros Ht. unfold api_send, create_messages_table, tableExists, table_rows.
  rewrite Ht. destruct db as [[rows|] seq]; cbn; repeat split.
Qed.

Lemma api_send_missing_to_witness :
  let db0 := {| db_messages := None; db_seq := 0 |} in
  let b := {| body_to := None; body_from := "carol"%string; body_message := "hi"%string |} in
  body_to b = None /\
  fst (api_send "carol"%string 1 b db0) = RError 500 /\
  tableExists (snd (api_send "carol"%string 1 b db0)) = true /\
  table_rows (snd (api_send "carol"%string 1 b db0)) = table_rows db0.
Proof.
  cbn zeta. split; [reflexivity|].
  apply (api_send_missing_to "carol"%string 1
           {| body_to := None; body_from := "carol"%string; body_message := "hi"%string |}
           {| db_messages := None; db_seq := 0 |}).
  reflexivity.
Defined.

(** The server applying [POST /api/messages/:id/read] for a list of ids,
    in the order they arrive, sets [read] to 1 on exactly the rows whose
    id is in the list and changes nothing else; the result depends only on
    the set of ids, so neither the arrival order of the parallel requests
    of [markAllAsRead] nor a repeated request matters.  Without a
    [messages] table nothing changes. *)
Theorem serve_marks_effect (ids : list Z) (db : Db) :
  db_messages (serve_marks ids db) =
    option_map (map (fun x => if existsb (Z.eqb (row_id x)) ids then set_read x else x))
      (db_messages db) /\
  db_seq (serve_marks ids db) = db_seq db.
Proof. apply serve_marks_rows. Qed.

(** A message posted to [POST /api/send] with recipient [to] reaches the
    inbox of a server run as any user whose name lowercases like [to]: the
    next [GET /api/messages] there returns it, with the sender's lowercased
    name, and the client of that user counts it as unread in its badge. *)
Theorem send_reaches_inbox (u v : string) (now : Z) (b : SendBody) (db : Db) (t : string)
    (r : list Row) (g : Globals) :
  body_to b = Some t -> toLowerCase v = toLowerCase t ->
  api_messages v (snd (api_send u now b db)) r ->
  user (config g) = v -> messages g = map row_json r ->
  exists x, In x r /\ row_sender x = toLowerCase u /\ row_message x = body_message b /\
    row_timestamp x = now /\ In (row_json x) (unread_inbox g).
Proof.
  intros Ht Hv Hq Hu Hm.
  destruct (api_send_some u now b db t Ht) as [row [E [R1 [R2 [R3 [R4 [R5 _]]]]]]].
  rewrite E in Hq. unfold api_messages, query_result in Hq. cbn [snd db_messages] in Hq.
  destruct Hq as [Hp _].
  assert (Hin : In row r).
  { apply (Permutation_in _ (Permutation_sym Hp)). apply filter_In. split.
    - apply in_or_app. right. left. reflexivity.
    - unfold for_recipient. rewrite R1, Hv. apply String.eqb_refl. }
  exists row. split; [exact Hin|]. split; [exact R2|]. split; [exact R3|]. split; [exact R4|].
  unfold unread_inbox. apply filter_In. split.
  - rewrite Hm. apply in_map, Hin.
  - unfold not_read. cbn [row_json read recipient]. rewrite R5, R1, Hu, Hv, toLowerCase_idem.
    rewrite String.eqb_refl. reflexivity.
Qed.

Lemma send_reaches_inbox_witness :
  let b := {| body_to := Some "Carol"%string; body_from := "alice"%string;
              body_message := "lunch?"%string |} in
  let r := [lunch_row; sample_row 2 "bob" "carol" 200 1; sample_row 1 "alice" "carol" 100 0] in
  api_messages "carol"%string (snd (api_send "alice"%string 500 b sample_db)) r /\
  exists x, In x r /\ row_sender x = toLowerCase "alice"%string /\
    row_message x = "lunch?"%string /\ row_timestamp x = 500%Z /\
    In (row_json x) (unread_inbox (snapshot "carol"%string (map row_json r) [] [])).
Proof.
  cbn zeta.
  assert (Hq : api_messages "carol"%string
     (snd (api_send "alice"%string 500
        {| body_to := Some "Carol"%string; body_from := "alice"%string;
           body_message := "lunch?"%string |} sample_db))
     [lunch_row; sample_row 2 "bob" "carol" 200 1; sample_row 1 "alice" "carol" 100 0]).
  { vm_compute. split.
    - exact (Permutation_rev _).
    - repeat constructor; vm_compute; discriminate. }
  split; [exact Hq|].
  exact (send_reaches_inbox "alice"%string "carol"%string 500
           {| body_to := Some "Carol"%string; body_from := "alice"%string;
              body_message := "lunch?"%string |} sample_db "Carol"%string _
           (snapshot "carol"%string _ [] []) eq_refl eq_refl Hq eq_refl eq_refl).
Defined.

(** After [markAllAsRead] on an inbox fetched from [GET /api/messages], once
    the server has applied its read marks, in whatever order the requests
    arrive ([ids] any permutation of the ids posted), the next inbox the
    client fetches gives an unread badge of 0, provided no message arrived
    in between. *)
Theorem markAllAsRead_clears_badge (u : string) (db : Db) (r r' : list Row) (g : Globals)
    (ids : list Z) :
  api_messages u db r -> user (config g) = u -> messages g = map row_json r ->
  Permutation (markAllAsRead_ids g) ids ->
  api_messages u (serve_marks ids db) r' ->
  unread_badge (with_data (map row_json r') (recipients g) (allMessages g) g) = 0%nat.
Proof.
  intros Hq Hu Hm Hids Hq'.
  destruct (serve_marks_rows ids db) as [E _].
  unfold api_messages, query_result in Hq, Hq'. rewrite E in Hq'.
  destruct (db_messages db) as [rows|]; cbn [option_map] in Hq'.
  2:{ rewrite Hq'. reflexivity. }
  destruct Hq as [Hp _]. destruct Hq' as [Hp' _].
  unfold unread_badge, unread_inbox. cbn [messages config with_data].
  apply length_zero_iff_nil.
  destruct (filter _ (map row_json r')) as [|y ys] eqn:F; [reflexivity|exfalso].
  assert (Hy : In y (y :: ys)) by (left; reflexivity). rewrite <- F in Hy.
  apply filter_In in Hy as [Hy Hp1]. apply in_map_iff in Hy as [x [<- Hx]].
  apply (Permutation_in _ Hp') in Hx. apply filter_In in Hx as [Hx Hrx].
  apply in_map_iff in Hx as [y0 [Ey0 Hy0]].
  apply andb_true_iff in Hp1 as [Hnr _].
  destruct (existsb (Z.eqb (row_id y0)) ids) eqn:Ex.
  - subst x. discriminate Hnr.
  - subst x.
    assert (Hin : In (row_json y0) (unread_inbox g)).
    { unfold unread_inbox. apply filter_In. split.
      - rewrite Hm. apply in_map. apply (Permutation_in _ (Permutation_sym Hp)).
        apply filter_In. split; assumption.
      - unfold for_recipient in Hrx. apply String.eqb_eq in Hrx.
        cbn [row_json recipient]. rewrite Hnr, Hrx, Hu, toLowerCase_idem, String.eqb_refl.
        reflexivity. }
    assert (Hid : In (row_id y0) ids).
    { apply (Permutation_in _ Hids). unfold markAllAsRead_ids.
      change (row_id y0) with (id (row_json y0)). apply in_map, Hin. }
    assert (existsb (Z.eqb (row_id y0)) ids = true) as Ht.
    { apply existsb_exists. exists (row_id y0). split; [exact Hid|apply Z.eqb_refl]. }
    congruence.
Qed.

Lemma markAllAsRead_clears_badge_witness :
  let g := snapshot "carol"%string (map row_json sample_inbox) [] [] in
  let r' := [sample_row 2 "bob" "carol" 200 1; sample_row 1 "alice" "carol" 100 1] in
  api_messages "carol"%string sample_db sample_inbox /\
  Permutation (markAllAsRead_ids g) (rev (markAllAsRead_ids g)) /\
  api_messages "carol"%string (serve_marks (rev (markAllAsRead_ids g)) sample_db) r' /\
  unread_badge g = 1%nat /\
  unread_badge (with_data (map row_json r') (recipients g) (allMessages g) g) = 0%nat.
Proof.
  cbn zeta.
  assert (H1 : api_messages "carol"%string sample_db sample_inbox).
  { vm_compute. split; [exact (Permutation_rev _)|].
    repeat constructor; vm_compute; discriminate. }
  assert (H2 : api_messages "carol"%string
     (serve_marks (rev (markAllAsRead_ids
                          (snapshot "carol"%string (map row_json sample_inbox) [] [])))
        sample_db)
     [sample_row 2 "bob" "carol" 200 1; sample_row 1 "alice" "carol" 100 1]).
  { vm_compute. split; [exact (Permutation_rev _)|].
    repeat constructor; vm_compute; discriminate. }
  assert (H3 : Permutation
     (markAllAsRead_ids (snapshot "carol"%string (map row_json sample_inbox) [] []))
     (rev (markAllAsRead_ids (snapshot "carol"%string (map row_json sample_inbox) [] []))))
    by exact (Permutation_rev _).
  split; [exact H1|]. split; [exact H3|]. split; [exact H2|]. split; [vm_compute; reflexivity|].
  exact (markAllAsRead_clears_badge "carol"%string sample_db sample_inbox _
           (snapshot "carol"%string (map row_json sample_inbox) [] []) _ H1 eq_refl eq_refl
           H3 H2).
Defined.

(** [sendMessage()] posts nothing, and alerts, when no coworker is
    selected or when the message consists only of white space (tabs, line
    breaks, spaces, no-break spaces) or is empty. *)
Theorem sendMessage_blank_alert (g : Globals) (to raw : string) :
  to = EmptyString \/ Forall (fun c => is_js_space c = true) (list_ascii_of_string raw) ->
  sendMessage_plan g to raw = PlanAlert.
Proof.
  intros H. unfold sendMessage_plan.
  destruct H as [->|H]; [reflexivity|].
  unfold trim. rewrite (drop_spaces_all _ H). cbn. rewrite orb_true_r. reflexivity.
Qed.

Lemma sendMessage_blank_alert_witness :
  let raw := String (ascii_of_nat 9) (String (ascii_of_nat 10) "  "%string) in
  Forall (fun c => is_js_space c = true) (list_ascii_of_string raw) /\
  sendMessage_plan carol_snapshot "alice"%string raw = PlanAlert.
Proof.
  cbn zeta.
  assert (H : Forall (fun c => is_js_space c = true)
    (list_ascii_of_string (String (ascii_of_nat 9) (String (ascii_of_nat 10) "  "%string)))).
  { repeat constructor. }
  split; [exact H|]. apply sendMessage_blank_alert. right. exact H.
Defined.

(** Every body [sendMessage()] posts carries the text of the input with the
    leading and trailing white space removed, which is not empty and
    neither starts nor ends with white space, and [from] set to the
    client's [config.user]. *)
Theorem sendMessage_posts_trimmed (g : Globals) (to raw : string) (bs : list SendBody) :
  sendMessage_plan g to raw = PlanSend bs ->
  trim raw <> EmptyString /\
  Forall (fun b => body_message b = trim raw /\ body_from b = user (config g)) bs /\
  exists pre post,
    list_ascii_of_string raw = pre ++ list_ascii_of_string (trim raw) ++ post /\
    Forall (fun c => is_js_space c = true) pre /\
    Forall (fun c => is_js_space c = true) post /\
    match list_ascii_of_string (trim raw) with c :: _ => is_js_space c = false | [] => True end /\
    match rev (list_ascii_of_string (trim raw)) with
    | c :: _ => is_js_space c = false | [] => True end.
Proof.
  unfold sendMessage_plan. intros H.
  destruct (String.eqb to EmptyString || String.eqb (trim raw) EmptyString) eqn:E;
    [discriminate|].
  apply orb_false_iff in E as [_ E]. apply String.eqb_neq in E.
  split; [exact E|]. split; [|apply trim_spec].
  destruct (String.eqb to "@everyone"%string); injection H as <-.
  - apply Forall_map. apply Forall_forall. intros r _. cbn. split; reflexivity.
  - repeat constructor.
Qed.

Lemma sendMessage_posts_trimmed_witness :
  let raw := String (ascii_of_nat 32) ("lunch?"%string ++ String (ascii_of_nat 10) EmptyString)%string in
  sendMessage_plan carol_snapshot "alice"%string raw =
    PlanSend [{| body_to := Some "alice"%string; body_from := "carol"%string;
                 body_message := "lunch?"%string |}] /\
  trim raw <> EmptyString /\
  Forall (fun b => body_message b = trim raw /\ body_from b = user (config carol_snapshot))
    [{| body_to := Some "alice"%string; body_from := "carol"%string;
        body_message := "lunch?"%string |}] /\
  exists pre post,
    list_ascii_of_string raw = pre ++ list_ascii_of_string (trim raw) ++ post /\
    Forall (fun c => is_js_space c = true) pre /\
    Forall (fun c => is_js_space c = true) post /\
    match list_ascii_of_string (trim raw) with c :: _ => is_js_space c = false | [] => True end /\
    match rev (list_ascii_of_string (trim raw)) with
    | c :: _ => is_js_space c = false | [] => True end.
Proof.
  cbn zeta.
  match goal with |- ?P /\ _ => assert (H : P) by (vm_compute; reflexivity) end.
  split; [exact H|]. exact (sendMessage_posts_trimmed carol_snapshot "alice"%string _ _ H).
Defined.

(** A broadcast ([@everyone]) with the roster served by
    [GET /api/coworkers], its requests handled by the server in whatever
    order they arrive, succeeds and adds exactly one message per coworker:
    the recipients of the new rows are the roster up to order, none of them
    is the sender, and each row carries the sender's lowercased name, the
    trimmed text and read flag 0. *)
Theorem sendMessage_broadcast (g : Globals) (u : string) (cdb : option (option (list string)))
    (raw : string) (bs bs' : list SendBody) (clock : nat -> Z) (db : Db) :
  recipients g = api_coworkers u cdb ->
  sendMessage_plan g "@everyone"%string raw = PlanSend bs ->
  Permutation bs bs' ->
  let res := serve_sends u clock 0 bs' db in
  allSuccessful (fst res) = true /\
  exists new, table_rows (snd res) = table_rows db ++ new /\
    Permutation (map row_recipient new) (recipients g) /\
    Forall (fun x => row_sender x = toLowerCase u /\ row_recipient x <> toLowerCase u /\
                     row_message x = trim raw /\ row_read x = 0%Z) new.
Proof.
  intros Hr Hp Hperm. cbn zeta. unfold sendMessage_plan in Hp.
  destruct (String.eqb "@everyone"%string EmptyString || String.eqb (trim raw) EmptyString);
    [discriminate|].
  cbn in Hp. injection Hp as <-.
  set (mk := fun r => {| body_to := Some r; body_from := user (config g);
                         body_message := trim raw |}) in *.
  assert (Hto : Forall (fun b => body_to b <> None) bs').
  { apply Forall_forall. intros b Hb.
    apply (Permutation_in _ (Permutation_sym Hperm)) in Hb.
    apply in_map_iff in Hb as [r [<- _]]. discriminate. }
  destruct (serve_sends_spec u clock bs' 0 db Hto) as [A [new [N1 [N2 [N3 N4]]]]].
  split; [exact A|]. exists new. split; [exact N1|].
  assert (Hlow : forall x, In x (recipients g) -> toLowerCase x = x).
  { intros x Hx. rewrite Hr in Hx. apply api_coworkers_In in Hx as [? [_ [_ [n [_ <-]]]]].
    apply toLowerCase_idem. }
  assert (Hrec : Permutation (map row_recipient new) (recipients g)).
  { rewrite N2.
    transitivity (map (fun b => toLowerCase match body_to b with Some t => t | None => EmptyString end)
                    (map mk (recipients g))).
    - apply Permutation_map. symmetry. exact Hperm.
    - rewrite map_map. cbn. rewrite (map_ext_in _ (fun x => x)) by exact Hlow.
      rewrite map_id. reflexivity. }
  split; [exact Hrec|].
  apply Forall_forall. intros x Hx.
  rewrite Forall_forall in N4. destruct (N4 x Hx) as [S1 S2].
  split; [exact S1|]. split; [|split; [|exact S2]].
  - intros Heq.
    assert (Hin : In (row_recipient x) (recipients g)).
    { apply (Permutation_in _ Hrec). apply in_map, Hx. }
    rewrite Hr in Hin. apply api_coworkers_In in Hin as [? [_ [Hne _]]]. contradiction.
  - assert (Hm : In (row_message x) (map body_message bs')).
    { rewrite <- N3. apply in_map, Hx. }
    apply in_map_iff in Hm as [b [Hb Hb']].
    apply (Permutation_in _ (Permutation_sym Hperm)) in Hb'.
    apply in_map_iff in Hb' as [r [<- _]]. rewrite <- Hb. reflexivity.
Qed.

Lemma sendMessage_broadcast_witness :
  let bs := [{| body_to := Some "alice"%string; body_from := "carol"%string;
                body_message := "standup"%string |};
             {| body_to := Some "bob"%string; body_from := "carol"%string;
                body_message := "standup"%string |}] in
  recipients broadcast_snapshot = api_coworkers "carol"%string sample_coworkers /\
  sendMessage_plan broadcast_snapshot "@everyone"%string "standup "%string = PlanSend bs /\
  let res := serve_sends "carol"%string (fun i => 600 + Z.of_nat i)%Z 0 (rev bs) sample_db in
  allSuccessful (fst res) = true /\
  exists new, table_rows (snd res) = table_rows sample_db ++ new /\
    Permutation (map row_recipient new) (recipients broadcast_snapshot) /\
    Forall (fun x => row_sender x = toLowerCase "carol"%string /\
                     row_recipient x <> toLowerCase "carol"%string /\
                     row_message x = trim "standup "%string /\ row_read x = 0%Z) new.
Proof.
  cbn zeta.
  assert (H1 : recipients broadcast_snapshot = api_coworkers "carol"%string sample_coworkers)
    by reflexivity.
  match goal with |- _ /\ ?P /\ _ => assert (H2 : P) by (vm_compute; reflexivity) end.
  split; [exact H1|]. split; [exact H2|].
  exact (sendMessage_broadcast broadcast_snapshot "carol"%string sample_coworkers
           "standup "%string _ _ (fun i => 600 + Z.of_nat i)%Z sample_db H1 H2
           (Permutation_rev _)).
Defined.

(** ** The user's desk *)

Lemma set_add_cons x y r : exists r', set_add x (y :: r) = y :: r'.
Proof. unfold set_add. destruct (set_has x (y :: r)); eexists; reflexivity. Qed.

Lemma fold_set_add_head xs y r :
  exists r', fold_left (fun s x => set_add x s) xs (y :: r) = y :: r'.
Proof.
  revert r. induction xs as [|x xs IH]; intros r; simpl; [eauto|].
  destruct (set_add_cons x y r) as [r' ->]. apply IH.
Qed.

Lemma agent_set_head g : exists r, agent_set g = toLowerCase (user (config g)) :: r.
Proof.
  unfold agent_set, set_of_list. cbn [fold_left].
  change (set_add (toLowerCase (user (config g))) []) with [toLowerCase (user (config g))].
  destruct (fold_set_add_head (map toLowerCase (recipients g)) (toLowerCase (user (config g))) [])
    as [r0 ->].
  generalize r0. induction (messages g) as [|m ms IH]; intros r; cbn [fold_left]; [eauto|].
  destruct (set_add_cons (toLowerCase (sender m)) (toLowerCase (user (config g))) r) as [r1 ->].
  destruct (set_add_cons (toLowerCase (recipient m)) (toLowerCase (user (config g))) r1)
    as [r2 ->].
  apply IH.
Qed.

(** The user's own desk is always the first of the layout: after a pass it
    stands at angle [-PI/2] on the layout circle, whatever the roster and
    the messages. *)
Theorem updateVillage_user_desk_first (g : Globals) (w : World) :
  NoDup (map fst (w_agentMeshes w)) ->
  exists d,
    map_get (toLowerCase (user (config g))) (w_agentMeshes (snd (updateVillage g w))) = Some d /\
    pos_angle (desk_pos d) == -(1 # 2) /\
    pos_radius (desk_pos d) = layout_radius (List.length (agent_set g)) /\
    pos_y (desk_pos d) = PLATFORM_HEIGHT.
Proof.
  intros Hnd. destruct (updateVillage_meshes g w Hnd) as [_ [_ H3]].
  destruct (agent_set_head g) as [r Hr].
  assert (H0 : nth_error (agent_set g) 0 = Some (toLowerCase (user (config g))))
    by (rewrite Hr; reflexivity).
  destruct (H3 0%nat _ H0) as [d [Hd [Hp _]]].
  exists d. split; [exact Hd|]. rewrite Hp. unfold layout_pos, layout_angle; cbn [pos_angle pos_radius pos_y].
  split; [|split; reflexivity].
  unfold Qeq. cbn. lia.
Qed.

Lemma updateVillage_user_desk_first_witness :
  NoDup (map fst (w_agentMeshes alice_world)) /\
  exists d,
    map_get (toLowerCase (user (config carol_snapshot)))
      (w_agentMeshes (snd (updateVillage carol_snapshot alice_world))) = Some d /\
    pos_angle (desk_pos d) == -(1 # 2) /\
    pos_radius (desk_pos d) = layout_radius (List.length (agent_set carol_snapshot)) /\
    pos_y (desk_pos d) = PLATFORM_HEIGHT.
Proof.
  assert (H : NoDup (map fst (w_agentMeshes alice_world))) by (repeat constructor; intros []).
  split; [exact H|]. exact (updateVillage_user_desk_first carol_snapshot alice_world H).
Defined.

(** ** [loadData] and the avatar states *)

(** When the four main requests of [loadData] succeed, the cycle runs to
    its end and no exception escapes, whatever happens to the avatar
    request: with an avatar database configured, [avatarStates] becomes the
    fetched object, or the empty object when that fetch or its parse fails;
    without one, [avatarStates] keeps its previous value.  [updateUI] then
    sorts the roster in place, and the scene is reconciled with the
    resulting globals unless [updateUI] throws while rendering a message
    card, in which case it is left as it was. *)
Theorem loadData_avatar_states (rt : Message -> bool) (dd : option (string * string))
    (f : Fetches) (g : Globals) (w : World) (c : Config)
    (jm : Json Message) (jc : Json string) (ja : Json Message) :
  configRes f = Fulfilled (Fulfilled c) -> messagesRes f = Fulfilled (Fulfilled jm) ->
  coworkersRes f = Fulfilled (Fulfilled jc) -> allMessagesRes f = Fulfilled (Fulfilled ja) ->
  let g1 := with_data (arrayOrEmpty jm) (arrayOrEmpty jc) (arrayOrEmpty ja) (with_config c g) in
  let a := if avatar_on c then
             match avatarsRes f with Fulfilled (Fulfilled a) => a | _ => [] end
           else avatarStates g in
  let g3 := updateUI_sort (with_avatars a g1) in
  loadData rt dd f (g, w) =
    Ok tt (g3, if updateUI_throws rt dd g3 then w else snd (updateVillage g3 w)).
Proof.
  intros E1 E2 E3 E4. cbn zeta.
  unfold loadData, try_catch, loadData_body, updateUI.
  rewrite E1, E2, E3, E4. destruct g as [cg mg amg rg ag].
  cbv [ebind eret get_globals put_globals ethrow run_scene console_error await
       promise_all4 fst snd updateUI_sort with_data with_avatars with_config].
  cbn -[updateUI_throws updateVillage sort_strings].
  destruct (avatar_on c);
    [destruct (avatarsRes f) as [[a|]|]|]; cbn -[updateUI_throws updateVillage sort_strings];
    (destruct (updateUI_throws rt dd _); reflexivity).
Qed.

Lemma loadData_avatar_states_witness :
  let rt := fun m : Message => Z.eqb (id m) 1 in
  let f := fetches_avatar_down in
  let g := with_avatars [("alice", "Bash")]%string carol_snapshot in
  let c := {| user := "carol"; mailbox := "mailbox.db"; avatar := Some "avatars.db" |}%string in
  let jm := JArray [msg 1 "alice" "carol" 0] in
  let jc := JArray ["alice"; "bob"]%string in
  configRes f = Fulfilled (Fulfilled c) /\ messagesRes f = Fulfilled (Fulfilled jm) /\
  coworkersRes f = Fulfilled (Fulfilled jc) /\ allMessagesRes f = Fulfilled (Fulfilled jm) /\
  let g3 := updateUI_sort (with_avatars [] (with_data (arrayOrEmpty jm) (arrayOrEmpty jc)
                                              (arrayOrEmpty jm) (with_config c g))) in
  loadData rt None f (g, alice_world) =
    Ok tt (g3, if updateUI_throws rt None g3 then alice_world
               else snd (updateVillage g3 alice_world)).
Proof.
  cbn zeta. split; [reflexivity|]. split; [reflexivity|]. split; [reflexivity|].
  split; [reflexivity|].
  exact (loadData_avatar_states (fun m : Message => Z.eqb (id m) 1) None fetches_avatar_down
           (with_avatars [("alice", "Bash")]%string carol_snapshot) alice_world
           {| user := "carol"; mailbox := "mailbox.db"; avatar := Some "avatars.db" |}%string
           (JArray [msg 1 "alice" "carol" 0]) (JArray ["alice"; "bob"]%string)
           (JArray [msg 1 "alice" "carol" 0]) eq_refl eq_refl eq_refl eq_refl).
Defined.
